(** * validate_fsa029: a shallow embedding of the FSA029 validation pipeline

    The development follows [validate_fsa029.py]: a hardened parser
    configuration, a loader that turns low-level failures into
    [RuntimeError]s, the in-memory rewrite of [schemaLocation]
    attributes, schema compilation through serialise/re-parse, and the
    [validate] driver that maps outcomes to exit codes.

    Python [str] values are modelled as [string], read as the UTF-8 bytes
    of the text.  The markers, separators and URI-safe characters the
    program looks for are ASCII, so substring tests and splitting on
    bytes agree with the same operations on code points.

    [pathlib.Path] is modelled with the POSIX flavour ([PurePosixPath]):
    the only separator is '/'.  What the file system and the XML engine
    answer (realpath, stat, is_dir, is_file, parse, serialise, compile,
    validate) is gathered in a record [World], and an answer may be an
    exception: a [stat] that fails, a symbolic link that leads back to
    itself, a parse that raises.  Writing to the standard streams,
    serialising a tree and validating a document against a compiled
    schema are taken to succeed.  A run is a computation that returns
    or raises and leaves a trace of the calls it made and the lines it
    printed. *)

From Stdlib Require Import ZArith Ascii String DecimalString.
From stdpp Require Import base list strings.

Local Open Scope string_scope.
Local Open Scope list_scope.
#[local] Set Warnings "-register-all".
#[local] Arguments String.append !s1 s2 : simpl nomatch.

(** ** Strings *)

Module Str.

(** [needle in hay] *)
Fixpoint contains (needle hay : string) : bool :=
  String.prefix needle hay ||
  match hay with
  | EmptyString => false
  | String _ hay' => contains needle hay'
  end.

(** Pieces of [s] between separator characters, the way [str.split(sep)]
    cuts at a one-character separator: empty pieces are kept.  [acc] is
    the piece being read. *)
Fixpoint split_aux (is_sep : ascii -> bool) (acc : string) (s : string) : list string :=
  match s with
  | EmptyString => [acc]
  | String c s' =>
      if is_sep c then acc :: split_aux is_sep "" s'
      else split_aux is_sep (acc +:+ String c "") s'
  end.

Definition split_on (is_sep : ascii -> bool) (s : string) : list string :=
  split_aux is_sep "" s.

(** [sep.join(l)] *)
Definition join (sep : string) (l : list string) : string := String.concat sep l.

(** Membership of a character. *)
Fixpoint mem (c : ascii) (s : string) : bool :=
  match s with
  | EmptyString => false
  | String c' s' => Ascii.eqb c c' || mem c s'
  end.

(** Decimal rendering of an [int], as [str(n)] and [f"{n}"] give. *)
Definition of_Z (z : Z) : string := NilZero.string_of_int (Z.to_int z).

(** [f"{s:>w}"]: pad on the left with spaces up to width [w]. *)
Fixpoint spaces (n : nat) : string :=
  match n with O => "" | S n' => String " " (spaces n') end.

Definition rjust (w : nat) (s : string) : string :=
  spaces (w - String.length s) +:+ s.

Definition is_slash (c : ascii) : bool := Ascii.eqb c "/".
Definition is_backslash (c : ascii) : bool := Ascii.eqb c "\".

End Str.

(** ** urllib.parse.quote_from_bytes, with the default [safe='/'] *)

Module Urllib.

Definition always_safe (c : ascii) : bool :=
  let n := N_of_ascii c in
  ((65 <=? n) && (n <=? 90) || (97 <=? n) && (n <=? 122) ||
   (48 <=? n) && (n <=? 57))%N
  || Ascii.eqb c "_" || Ascii.eqb c "." || Ascii.eqb c "-" || Ascii.eqb c "~".

Definition hex_digit (n : N) : ascii :=
  (if n <? 10 then ascii_of_N (48 + n) else ascii_of_N (55 + n))%N.

Definition quote_byte (c : ascii) : string :=
  if always_safe c || Str.is_slash c then String c ""
  else let n := N_of_ascii c in
       String "%" (String (hex_digit (n / 16)) (String (hex_digit (n mod 16)) "")).

Fixpoint quote_from_bytes (bs : string) : string :=
  match bs with
  | EmptyString => ""
  | String c bs' => quote_byte c +:+ quote_from_bytes bs'
  end.

End Urllib.

(** ** The run-time: exceptions, output and the calls that leave the program *)

Module Py.

(** One entry of an lxml error log. *)
Record log_entry := mkEntry { line : Z; column : Z; message : string }.

(** The exceptions the program meets; [RuntimeError] carries its message
    and the exception it was raised [from].  [OtherException] stands
    for an exception of a class that no [except] clause of the program
    names ([UnicodeEncodeError], say). *)
Inductive exception :=
| XMLSyntaxError (detail : string)
| OSError (detail : string)
| XMLSchemaParseError (error_log : list log_entry)
| RuntimeError (msg : string) (cause : option exception)
| OtherException (class detail : string).

(** The keyword arguments of [ET.XMLParser] the hardening is about. *)
Record XMLParser := mkParser {
  load_dtd : bool;
  no_network : bool;
  resolve_entities : bool;
  huge_tree : bool;
  dtd_validation : bool;
  attribute_defaults : bool;
  recover : bool
}.

(** What a run does that can be seen from outside, in order. *)
Inductive event :=
| NewParser (cfg : XMLParser)
| Stat (what : string) (p : string)
| Parse (source : string) (cfg : XMLParser)
| ToString (xml_declaration : bool) (encoding : string)
| FromString (bytes : string) (cfg : XMLParser)
| CompileSchema
| SchemaValidate
| Stdout (text : string)
| Stderr (text : string).

Inductive result (A : Type) :=
| Val (a : A)
| Exc (e : exception).
Arguments Val {A} a.
Arguments Exc {A} e.

(** A computation extends the trace of events and returns or raises. *)
Definition M (A : Type) : Type := list event -> result A * list event.

Definition ret {A} (a : A) : M A := fun tr => (Val a, tr).

Definition bind {A B} (m : M A) (k : A -> M B) : M B :=
  fun tr =>
    match m tr with
    | (Val a, tr') => k a tr'
    | (Exc e, tr') => (Exc e, tr')
    end.

Definition raise {A} (e : exception) : M A := fun tr => (Exc e, tr).

Definition emit (ev : event) : M unit := fun tr => (Val tt, tr ++ [ev]).

(** [try: m except RuntimeError as e: ...]: a [RuntimeError] is handed
    to the handler as its message; any other exception goes on. *)
Definition try_RuntimeError {A} (m : M A) : M (A + string) :=
  fun tr =>
    match m tr with
    | (Val a, tr') => (Val (inl a), tr')
    | (Exc (RuntimeError msg _), tr') => (Val (inr msg), tr')
    | (Exc e, tr') => (Exc e, tr')
    end.

(** [for x in l: body] over a state that the body changes in place:
    the first exception ends the loop. *)
Fixpoint for_each {S A} (body : S -> A -> result S) (s : S) (l : list A) : result S :=
  match l with
  | [] => Val s
  | x :: l' =>
      match body s x with
      | Val s' => for_each body s' l'
      | Exc e => Exc e
      end
  end.

Definition print (text : string) : M unit := emit (Stdout text).
Definition print_stderr (text : string) : M unit := emit (Stderr text).

(** [enumerate(l, start)] *)
Fixpoint enumerate {A} (start : Z) (l : list A) : list (Z * A) :=
  match l with
  | [] => []
  | x :: l' => (start, x) :: enumerate (start + 1)%Z l'
  end.

Definition nl : string := String (ascii_of_nat 10) "".

End Py.

(** ** pathlib, POSIX flavour *)

Module Pathlib.

(** A parsed path: [root] is "", "/" or "//"; [tail] holds the
    components. *)
Record PurePosixPath := mkPath { root : string; tail : list string }.

Definition starts_with_slash (s : string) : bool :=
  match s with
  | String c _ => Str.is_slash c
  | EmptyString => false
  end.

Definition drop1 (s : string) : string :=
  match s with
  | String _ s' => s'
  | EmptyString => ""
  end.

(** [posixpath.splitroot]: no leading slash; one leading slash (three or
    more count as one); exactly two. *)
Definition splitroot (p : string) : string * string :=
  if negb (starts_with_slash p) then ("", p)
  else if negb (starts_with_slash (drop1 p)) || starts_with_slash (drop1 (drop1 p))
       then ("/", drop1 p)
       else ("//", drop1 (drop1 p)).

Definition is_component (x : string) : bool :=
  negb (String.eqb x "") && negb (String.eqb x ".").

(** [Path(s)]: split the part after the root at '/', drop empty and "."
    components. *)
Definition Path (s : string) : PurePosixPath :=
  let '(r, rel) := splitroot s in
  mkPath r (List.filter is_component (Str.split_on Str.is_slash rel)).

(** [p.name]: the last component, or "" when there is none. *)
Definition name (p : PurePosixPath) : string := List.last (tail p) "".

(** [str(p)] *)
Definition str (p : PurePosixPath) : string :=
  let s := root p +:+ Str.join "/" (tail p) in
  if String.eqb s "" then "." else s.

(** [p / key]: an absolute [key] replaces [p]. *)
Definition joinpath (p : PurePosixPath) (key : string) : PurePosixPath :=
  let q := Path key in
  if String.eqb (root q) "" then mkPath (root p) (tail p ++ tail q) else q.

(** [p.as_uri()].  pathlib raises [ValueError] on a relative path; the
    program only calls it on the result of [resolve], which is
    absolute. *)
Definition as_uri (p : PurePosixPath) : string :=
  "file://" +:+ Urllib.quote_from_bytes (str p).

Section Resolve.
(** [os.path.realpath], asked of the file system: the components of
    the absolute path that [p] names, symbolic links followed as far as
    they lead somewhere.  Without [strict] it raises nothing. *)
Variable realpath : PurePosixPath -> list string.
(** [p.stat()] failing with [ELOOP], asked of the file system: the
    [repr] of the file name that the [OSError] carries. *)
Variable stat_eloop : PurePosixPath -> option string.

(** The path that [realpath] answers. *)
Definition real (p : PurePosixPath) : PurePosixPath := mkPath "/" (realpath p).

(** [p.resolve()] as pathlib has it up to Python 3.12: the real path,
    then a [stat] of it whose only purpose is to raise on a loop of
    symbolic links; any other failure of that [stat] is dropped.  (From
    3.13 on the [stat] is gone: [stat_eloop] answers [None].) *)
Definition resolve (p : PurePosixPath) : Py.result PurePosixPath :=
  let q := real p in
  match stat_eloop q with
  | Some filename =>
      Py.Exc (Py.RuntimeError ("Symlink loop from " +:+ filename) None)
  | None => Py.Val q
  end.
End Resolve.

(** The answer of a file system without symbolic links whose working
    directory is [cwd]: make the path absolute, then fold ".." away
    ("/.." is "/"). *)
Fixpoint normpath (acc : list string) (cs : list string) : list string :=
  match cs with
  | [] => acc
  | c :: cs' =>
      if String.eqb c ".." then normpath (removelast acc) cs'
      else normpath (acc ++ [c]) cs'
  end.

Definition realpath_lexical (cwd : list string) (p : PurePosixPath) : list string :=
  normpath [] ((if String.eqb (root p) "" then cwd else []) ++ tail p).

End Pathlib.

Notation "p </> key" := (Pathlib.joinpath p key) (at level 40, left associativity).

(** ** lxml element trees *)

Module ET.

(** An element carries its tag in Clark notation ("{namespace}local"),
    its attributes in document order, its text, its children and the
    text that follows it.  Comments and processing instructions are
    leaves with no tag to match. *)
Inductive node :=
| Element (tag : string) (attrib : list (string * string)) (text : string)
          (children : list node) (tail : string)
| Comment (text tail : string)
| ProcessingInstruction (target text tail : string).

(** [_ElementTree]: the document around the root element. *)
Record ElementTree := mkTree { docinfo : string; getroot : node }.

(** A node of a tree is addressed by the child indices that lead to it
    from the root: the objects the program holds are such addresses into
    the one mutable tree. *)
Definition path := list nat.

Definition children_of (n : node) : list node :=
  match n with
  | Element _ _ _ cs _ => cs
  | _ => []
  end.

Fixpoint node_at (n : node) (p : path) : option node :=
  match p with
  | [] => Some n
  | i :: q =>
      match children_of n !! i with
      | Some c => node_at c q
      | None => None
      end
  end.

(** In-place change of the node at address [p]. *)
Fixpoint update_at (p : path) (f : node -> node) (n : node) : node :=
  match p with
  | [] => f n
  | i :: q =>
      match n with
      | Element t a x cs tl => Element t a x (alter (update_at q f) i cs) tl
      | _ => n
      end
  end.

(** [attrib.get(key)]: [None] when the attribute is absent. *)
Fixpoint attrib_get (a : list (string * string)) (key : string) : option string :=
  match a with
  | [] => None
  | (k, v) :: a' => if String.eqb k key then Some v else attrib_get a' key
  end.

(** [attrib[key] = value]: an attribute that exists keeps its place. *)
Fixpoint attrib_set (a : list (string * string)) (key value : string)
  : list (string * string) :=
  match a with
  | [] => [(key, value)]
  | (k, v) :: a' =>
      if String.eqb k key then (k, value) :: a'
      else (k, v) :: attrib_set a' key value
  end.

Definition get (n : node) (key : string) : option string :=
  match n with
  | Element _ a _ _ _ => attrib_get a key
  | _ => None
  end.

Definition set (n : node) (key value : string) : node :=
  match n with
  | Element t a x cs tl => Element t (attrib_set a key value) x cs tl
  | _ => n
  end.

Definition has_tag (t : string) (n : node) : bool :=
  match n with
  | Element t' _ _ _ _ => String.eqb t' t
  | _ => false
  end.

Section Walk.
Variable descend : node -> list path.
Variable t : string.

(** The children from index [i] on, each followed by what lies below
    it: document order. *)
Fixpoint walk (i : nat) (cs : list node) : list path :=
  match cs with
  | [] => []
  | c :: cs' =>
      (if has_tag t c then [[i]] else []) ++
      List.map (cons i) (descend c) ++
      walk (S i) cs'
  end.
End Walk.

(** [n.iterdescendants(t)]: the elements below [n] with tag [t], in
    document order; [n] itself is not among them. *)
Fixpoint iterdescendants (t : string) (n : node) : list path :=
  match n with
  | Element _ _ _ cs _ => walk (iterdescendants t) t 0 cs
  | _ => []
  end.

(** Clark notation of a prefixed name once the prefix is looked up. *)
Definition clark (ns local : string) : string := "{" +:+ ns +:+ "}" +:+ local.

End ET.

Declare Scope py_scope.
Delimit Scope py_scope with py.
Notation "x <- m ;; k" := (Py.bind m (fun x => k))
  (at level 100, m at next level, right associativity) : py_scope.
Notation "m ;;; k" := (Py.bind m (fun _ => k))
  (at level 100, right associativity) : py_scope.

(** ** validate_fsa029.py *)

Import Py.
Local Open Scope py_scope.

Definition XS_NS : string := "http://www.w3.org/2001/XMLSchema".

(** [f".//xs:{tag}"] with [namespaces=NS]: the tag the search looks for. *)
Definition xs (tag : string) : string := ET.clark XS_NS tag.

Definition reference_tags : list string := ["import"; "include"; "redefine"].

Definition forbidden_parts : list string :=
  ["/CommonTypes/v14/"; "\CommonTypes\v14\"].

(** ["/CommonTypes/v14/" in loc or "\\CommonTypes\\v14\\" in loc] *)
Definition has_forbidden (loc : string) : bool :=
  Str.contains "/CommonTypes/v14/" loc || Str.contains "\CommonTypes\v14\" loc.

(** The parser [make_secure_parser] builds: the four flags it sets, the
    rest at lxml's defaults. *)
Definition secure_parser : XMLParser :=
  {| load_dtd := false;
     no_network := true;
     resolve_entities := false;
     huge_tree := false;
     dtd_validation := false;
     attribute_defaults := false;
     recover := false |}.

Definition make_secure_parser : M XMLParser :=
  emit (NewParser secure_parser) ;;; ret secure_parser.

Section Rewrite.
Variable realpath : Pathlib.PurePosixPath -> list string.
Variable stat_eloop : Pathlib.PurePosixPath -> option string.

(** The body of the first loop (lines 43-54) for the node at address
    [p] of the tree [root]: the tree after it, or what [resolve]
    raised.  The path is resolved for every location that is not
    empty, before the marker is looked for. *)
Definition rewrite_node (schema_dir : Pathlib.PurePosixPath)
    (root : ET.node) (p : ET.path) : result ET.node :=
  match ET.node_at root p with
  | None => Val root
  | Some node =>
      match ET.get node "schemaLocation" with
      | None => Val root
      | Some loc =>
          if String.eqb loc "" then Val root
          else
            let file_name := Pathlib.name (Pathlib.Path loc) in
            match Pathlib.resolve realpath stat_eloop (schema_dir </> file_name) with
            | Exc e => Exc e
            | Val target =>
                let uri := Pathlib.as_uri target in
                if has_forbidden loc
                then Val (ET.update_at p (fun n => ET.set n "schemaLocation" uri) root)
                else Val root
            end
      end
  end.

(** Lines 41-54: for each tag, the nodes found are changed in place, one
    after the other, in the tree the next search then sees. *)
Definition rewrite_pass (schema_dir : Pathlib.PurePosixPath) (root : ET.node)
  : result ET.node :=
  for_each (fun r tag =>
              for_each (rewrite_node schema_dir) r (ET.iterdescendants (xs tag) r))
           root reference_tags.

(** Lines 57-61: does the second search meet the marker? *)
Definition marker_remains (root : ET.node) : bool :=
  existsb (fun tag =>
             existsb (fun p =>
                        match ET.node_at root p with
                        | Some node =>
                            has_forbidden (default "" (ET.get node "schemaLocation"))
                        | None => false
                        end)
                     (ET.iterdescendants (xs tag) root))
          reference_tags.

Definition rewrite_incomplete : exception :=
  RuntimeError "[Error] '/CommonTypes/v14/' still present after rewrite." None.

Definition rewrite_schema_imports_in_memory
    (xsd_tree : ET.ElementTree) (schema_dir : Pathlib.PurePosixPath)
  : result ET.ElementTree :=
  match rewrite_pass schema_dir (ET.getroot xsd_tree) with
  | Exc e => Exc e
  | Val root' =>
      if marker_remains root' then Exc rewrite_incomplete
      else Val (ET.mkTree (ET.docinfo xsd_tree) root')
  end.
End Rewrite.

(** What [ET.parse] answers: a tree, an [XMLSyntaxError], an [OSError]
    (of any subclass), or an exception of another class, as the
    [UnicodeEncodeError] for a file name that cannot be encoded. *)
Inductive parse_outcome :=
| Parsed (tree : ET.ElementTree)
| SyntaxFault (detail : string)
| ReadFault (detail : string)
| OtherFault (class detail : string).

(** What [Path.is_dir()] and [Path.is_file()] answer: a boolean, or the
    [OSError] of the [stat] underneath, which pathlib hands on unless
    its errno is ENOENT, ENOTDIR, EBADF or ELOOP. *)
Inductive stat_outcome :=
| Answer (b : bool)
| StatFault (detail : string).

(** What lies outside the program: the file system and the XML engine.
    A run asks them and they answer; the answers do not change during a
    run (the program writes no file). *)
Record World := mkWorld {
  (** the compiled schema object of the engine *)
  XMLSchema : Type;
  (** [os.path.realpath], the [stat] inside [Path.resolve],
      [Path.is_dir], [Path.is_file] *)
  realpath : Pathlib.PurePosixPath -> list string;
  stat_eloop : Pathlib.PurePosixPath -> option string;
  fs_is_dir : Pathlib.PurePosixPath -> stat_outcome;
  fs_is_file : Pathlib.PurePosixPath -> stat_outcome;
  (** [ET.parse(source, parser)] *)
  ET_parse : string -> XMLParser -> parse_outcome;
  (** [ET.tostring(tree, xml_declaration, encoding)] *)
  ET_tostring : ET.ElementTree -> bool -> string -> string;
  (** [ET.fromstring(bytes, parser)]: the root, or the detail of an
      [XMLSyntaxError] *)
  ET_fromstring : string -> XMLParser -> ET.node + string;
  (** [ET.XMLSchema(doc)]: the schema, or the error log of an
      [XMLSchemaParseError] *)
  ET_XMLSchema : ET.node -> XMLSchema + list log_entry;
  (** [schema.validate(doc)] and the [schema.error_log] it leaves *)
  schema_validate : XMLSchema -> ET.ElementTree -> bool;
  schema_error_log : XMLSchema -> ET.ElementTree -> list log_entry
}.

Definition malformed_msg (kind detail : string) : string :=
  "[Error] " +:+ kind +:+ " is not well-formed XML: " +:+ detail.

Definition unreadable_msg (kind : string) (path : Pathlib.PurePosixPath)
    (detail : string) : string :=
  "[Error] Cannot read " +:+ kind +:+ " at " +:+ Pathlib.str path +:+ ": " +:+ detail.

Definition load_xml (w : World) (path : Pathlib.PurePosixPath) (kind : string)
  : M ET.ElementTree :=
  parser <- make_secure_parser ;;
  emit (Parse (Pathlib.str path) parser) ;;;
  match ET_parse w (Pathlib.str path) parser with
  | Parsed tree => ret tree
  | SyntaxFault e =>
      raise (RuntimeError (malformed_msg kind e) (Some (XMLSyntaxError e)))
  | ReadFault e =>
      raise (RuntimeError (unreadable_msg kind path e) (Some (OSError e)))
  | OtherFault class e => raise (OtherException class e)
  end.

Definition compile_issue (ie : Z * log_entry) : string :=
  let '(i, entry) := ie in
  "  " +:+ Str.of_Z i +:+ ". Line " +:+ Str.of_Z (line entry) +:+
  ", Col " +:+ Str.of_Z (column entry) +:+ ": " +:+ message entry.

Definition compile_error_lines (error_log : list log_entry) : list string :=
  ("[Error] Schema compilation failed (" +:+
     Str.of_Z (Z.of_nat (length error_log)) +:+ " issue(s)):")
  :: List.map compile_issue (enumerate 1 error_log).

Definition compile_schema (w : World) (xsd_tree : ET.ElementTree) : M (XMLSchema w) :=
  parser <- make_secure_parser ;;
  emit (ToString true "utf-8") ;;;
  let xsd_bytes := ET_tostring w xsd_tree true "utf-8" in
  emit (FromString xsd_bytes parser) ;;;
  match ET_fromstring w xsd_bytes parser with
  | inr e => raise (XMLSyntaxError e)
  | inl xsd_doc =>
      emit CompileSchema ;;;
      match ET_XMLSchema w xsd_doc with
      | inl schema => ret schema
      | inr error_log =>
          raise (RuntimeError (Str.join nl (compile_error_lines error_log))
                              (Some (XMLSchemaParseError error_log)))
      end
  end.

Definition _contains_forbidden (p : Pathlib.PurePosixPath) : bool :=
  existsb (fun f => Str.contains f (Pathlib.str p)) forbidden_parts.

Definition validation_issue (ie : Z * log_entry) : string :=
  let '(i, entry) := ie in
  "  " +:+ Str.rjust 2 (Str.of_Z i) +:+ ". Line " +:+ Str.of_Z (line entry) +:+
  ", Col " +:+ Str.of_Z (column entry) +:+ ": " +:+ message entry.

Fixpoint print_all (lines : list string) : M unit :=
  match lines with
  | [] => ret tt
  | l :: ls => print l ;;; print_all ls
  end.

Definition stat_answer (o : stat_outcome) : M bool :=
  match o with
  | Answer b => ret b
  | StatFault e => raise (OSError e)
  end.

Definition is_dir (w : World) (p : Pathlib.PurePosixPath) : M bool :=
  emit (Stat "is_dir" (Pathlib.str p)) ;;; stat_answer (fs_is_dir w p).

Definition is_file (w : World) (p : Pathlib.PurePosixPath) : M bool :=
  emit (Stat "is_file" (Pathlib.str p)) ;;; stat_answer (fs_is_file w p).

(** [argparse.Namespace] with the two positional arguments. *)
Record Namespace := mkArgs { arg_schema_dir : string; arg_submission : string }.

Definition forbidden_msg : string :=
  "[ERROR] File locations must not contain '/CommonTypes/v14/'.".

(** [print(..., file=sys.stderr); return 2] *)
Definition fail (text : string) : M Z := print_stderr text ;;; ret 2%Z.

Definition validate (w : World) (args : Namespace) : M Z :=
  let schema_dir := Pathlib.Path (arg_schema_dir args) in
  let submission := Pathlib.Path (arg_submission args) in
  let fsa_xsd := schema_dir </> "FSA029-Schema.xsd" in
  let ct_xsd := schema_dir </> "CommonTypes-Schema.xsd" in
  if existsb _contains_forbidden [schema_dir; submission] then fail forbidden_msg
  else
  d <- is_dir w schema_dir ;;
  if negb d then fail ("[ERROR] Not a directory: " +:+ Pathlib.str schema_dir) else
  f1 <- is_file w fsa_xsd ;;
  if negb f1 then fail ("[ERROR] Missing: " +:+ Pathlib.str fsa_xsd) else
  f2 <- is_file w ct_xsd ;;
  if negb f2 then fail ("[ERROR] Missing: " +:+ Pathlib.str ct_xsd) else
  f3 <- is_file w submission ;;
  if negb f3 then fail ("[ERROR] Missing: " +:+ Pathlib.str submission) else
  loaded <- try_RuntimeError
              (xsd_tree <- load_xml w fsa_xsd "Main XSD" ;;
               _ <- load_xml w ct_xsd "CommonTypes XSD" ;;
               xml_doc <- load_xml w submission "Submission" ;;
               ret (xsd_tree, xml_doc)) ;;
  match loaded with
  | inr e => fail ("[ERROR] " +:+ e)
  | inl (xsd_tree, xml_doc) =>
      print "[OK] Loaded XSDs & submission securely." ;;;
      rewritten <- try_RuntimeError
                     (fun tr => (rewrite_schema_imports_in_memory
                                   (realpath w) (stat_eloop w) xsd_tree schema_dir,
                                 tr)) ;;
      match rewritten with
      | inr e => fail ("[ERROR] " +:+ e)
      | inl rewritten =>
          compiled <- try_RuntimeError (compile_schema w rewritten) ;;
          match compiled with
          | inr e => fail ("[ERROR] " +:+ e)
          | inl schema =>
              emit SchemaValidate ;;;
              let ok := schema_validate w schema xml_doc in
              if ok then
                print "[OK] Submission conforms to the FSA029 schema." ;;;
                ret 0%Z
              else
                print "[Error] Issues:" ;;;
                print_all (List.map validation_issue
                             (enumerate 1 (schema_error_log w schema xml_doc))) ;;;
                ret 1%Z
          end
      end
  end.

(** ** Reading the tree: what the statements below talk about *)

(** A change that touches the attributes of an element and nothing
    else. *)
Definition on_attrib (g : list (string * string) -> list (string * string))
    (n : ET.node) : ET.node :=
  match n with
  | ET.Element t a x cs tl => ET.Element t (g a) x cs tl
  | _ => n
  end.

(** [f] applied to every node strictly below [n] that [sel] picks. *)
Fixpoint map_below (sel : ET.node -> bool) (f : ET.node -> ET.node) (n : ET.node)
  : ET.node :=
  match n with
  | ET.Element t a x cs tl =>
      ET.Element t a x
        (List.map (fun c => let c' := map_below sel f c in
                            if sel c then f c' else c') cs) tl
  | _ => n
  end.

(** The node without what hangs below it: tag, attributes, text, tail. *)
Definition strip (n : ET.node) : ET.node :=
  match n with
  | ET.Element t a x _ tl => ET.Element t a x [] tl
  | _ => n
  end.

(** A reference node: [import], [include] or [redefine] of the XSD
    namespace. *)
Definition is_reference (n : ET.node) : bool :=
  existsb (fun tag => ET.has_tag (xs tag) n) reference_tags.

(** The addresses of the reference nodes the searches range over: every
    depth below the root. *)
Definition reference_nodes (root : ET.node) : list ET.path :=
  flat_map (fun tag => ET.iterdescendants (xs tag) root) reference_tags.

(** [node.get("schemaLocation") or ""] at an address. *)
Definition location_at (root : ET.node) (p : ET.path) : string :=
  match ET.node_at root p with
  | Some node => default "" (ET.get node "schemaLocation")
  | None => ""
  end.

(** The reference nodes whose location holds the marker, in either
    form. *)
Definition matching_references (root : ET.node) : list ET.path :=
  List.filter (fun p => has_forbidden (location_at root p)) (reference_nodes root).

(** The part of [s] after its last '/'. *)
Definition final_segment (s : string) : string :=
  List.last (Str.split_on Str.is_slash s) "".

(** The file name of a location as the specification words it: the last
    segment, whichever of '/' and '\' separates the segments. *)
Definition file_name_any_separator (loc : string) : string :=
  List.last
    (List.filter Pathlib.is_component
       (Str.split_on (fun c => Str.is_slash c || Str.is_backslash c) loc)) "".

(** An address below the root. *)
Definition below_top (p : ET.path) : bool :=
  match p with [] => false | _ => true end.

(** The exception of [resolve] at a loop of symbolic links. *)
Definition symlink_loop (filename : string) : exception :=
  RuntimeError ("Symlink loop from " +:+ filename) None.

Section Completed.
Variable realpath : Pathlib.PurePosixPath -> list string.
Variable stat_eloop : Pathlib.PurePosixPath -> option string.
Variable schema_dir : Pathlib.PurePosixPath.

(** The URI that lines 48-49 compute for a location when [resolve]
    returns. *)
Definition local_uri (loc : string) : string :=
  let file_name := Pathlib.name (Pathlib.Path loc) in
  Pathlib.as_uri (Pathlib.real realpath (schema_dir </> file_name)).

(** What the loop body leaves of a node when [resolve] returns, on the
    attributes alone and on the node. *)
Definition rewrite_attrib (a : list (string * string)) : list (string * string) :=
  match ET.attrib_get a "schemaLocation" with
  | None => a
  | Some loc =>
      if String.eqb loc "" then a
      else if has_forbidden loc
           then ET.attrib_set a "schemaLocation" (local_uri loc)
           else a
  end.

Definition rewritten_node (node : ET.node) : ET.node :=
  match ET.get node "schemaLocation" with
  | None => node
  | Some loc =>
      if String.eqb loc "" then node
      else if has_forbidden loc then ET.set node "schemaLocation" (local_uri loc)
           else node
  end.

(** The tree the two nested loops leave when no [resolve] raises. *)
Definition completed_pass (root : ET.node) : ET.node :=
  foldl (fun r tag =>
           foldl (fun r' p => ET.update_at p rewritten_node r')
                 r (ET.iterdescendants (xs tag) r))
        root reference_tags.

(** What the [stat] inside [resolve] answers for the entry that [loc]
    names in the trusted directory. *)
Definition loop_of (loc : string) : option string :=
  stat_eloop (Pathlib.real realpath (schema_dir </> Pathlib.name (Pathlib.Path loc))).

(** [resolve] returns for that entry: no loop of symbolic links. *)
Definition resolves (loc : string) : Prop := loop_of loc = None.

(** The same for the node at an address; a node without a location, or
    with an empty one, has no path resolved for it. *)
Definition loop_at (root : ET.node) (p : ET.path) : option string :=
  let loc := location_at root p in
  if String.eqb loc "" then None else loop_of loc.

(** The first loop of symbolic links that the first pass runs into. *)
Fixpoint first_loop (root : ET.node) (ps : list ET.path) : option string :=
  match ps with
  | [] => None
  | p :: ps' =>
      match loop_at root p with
      | Some filename => Some filename
      | None => first_loop root ps'
      end
  end.
End Completed.

(** The reference nodes whose location is not empty: those for which the
    first pass resolves a path. *)
Definition located_references (root : ET.node) : list ET.path :=
  List.filter (fun p => negb (String.eqb (location_at root p) "")) (reference_nodes root).

(** The entry that [loc] names resolves to itself inside the resolved
    directory: it is no symbolic link and no "..". *)
Definition resolves_in_place (realpath : Pathlib.PurePosixPath -> list string)
    (schema_dir : Pathlib.PurePosixPath) (loc : string) : Prop :=
  let file_name := Pathlib.name (Pathlib.Path loc) in
  realpath (schema_dir </> file_name) = realpath schema_dir ++ [file_name].

(** [m] is not empty and [c] is its last character. *)
Fixpoint ends_with (c : ascii) (m : string) : bool :=
  match m with
  | EmptyString => false
  | String x EmptyString => Ascii.eqb x c
  | String _ m' => ends_with c m'
  end.

(** ** Reading a run *)

Definition schema_dir_of (args : Namespace) : Pathlib.PurePosixPath :=
  Pathlib.Path (arg_schema_dir args).

Definition submission_of (args : Namespace) : Pathlib.PurePosixPath :=
  Pathlib.Path (arg_submission args).

(** The answer is [True]. *)
Definition says_yes (o : stat_outcome) : bool :=
  match o with
  | Answer true => true
  | _ => false
  end.

(** Neither path holds the marker. *)
Definition paths_clean (args : Namespace) : bool :=
  negb (has_forbidden (Pathlib.str (schema_dir_of args))) &&
  negb (has_forbidden (Pathlib.str (submission_of args))).

(** The checks that come before any load. *)
Definition checks_pass (w : World) (args : Namespace) : bool :=
  negb (has_forbidden (Pathlib.str (schema_dir_of args))) &&
  negb (has_forbidden (Pathlib.str (submission_of args))) &&
  says_yes (fs_is_dir w (schema_dir_of args)) &&
  says_yes (fs_is_file w (schema_dir_of args </> "FSA029-Schema.xsd")) &&
  says_yes (fs_is_file w (schema_dir_of args </> "CommonTypes-Schema.xsd")) &&
  says_yes (fs_is_file w (submission_of args)).

(** What the four existence checks are answered, in the order the
    program asks, and the first answer that is not [True]. *)
Definition stat_answers (w : World) (args : Namespace) : list stat_outcome :=
  [fs_is_dir w (schema_dir_of args);
   fs_is_file w (schema_dir_of args </> "FSA029-Schema.xsd");
   fs_is_file w (schema_dir_of args </> "CommonTypes-Schema.xsd");
   fs_is_file w (submission_of args)].

Definition first_refusal (answers : list stat_outcome) : option stat_outcome :=
  List.find (fun o => negb (says_yes o)) answers.

Definition parse_file (w : World) (p : Pathlib.PurePosixPath) : parse_outcome :=
  ET_parse w (Pathlib.str p) secure_parser.

Definition is_fault (o : parse_outcome) : bool :=
  match o with
  | Parsed _ => false
  | _ => true
  end.

(** The exception of a parse that [load_xml] has no clause for. *)
Definition escapes (o : parse_outcome) : option exception :=
  match o with
  | OtherFault class e => Some (OtherException class e)
  | _ => None
  end.

(** What the three loads are answered, in the order the program asks,
    and the first answer that is not a tree. *)
Definition parse_answers (w : World) (args : Namespace) : list parse_outcome :=
  [parse_file w (schema_dir_of args </> "FSA029-Schema.xsd");
   parse_file w (schema_dir_of args </> "CommonTypes-Schema.xsd");
   parse_file w (submission_of args)].

Definition first_fault (answers : list parse_outcome) : option parse_outcome :=
  List.find is_fault answers.

(** The checks pass and the three loads succeed. *)
Definition loaded (w : World) (args : Namespace)
    (xsd_tree xml_doc : ET.ElementTree) : Prop :=
  checks_pass w args = true /\
  parse_file w (schema_dir_of args </> "FSA029-Schema.xsd") = Parsed xsd_tree /\
  is_fault (parse_file w (schema_dir_of args </> "CommonTypes-Schema.xsd")) = false /\
  parse_file w (submission_of args) = Parsed xml_doc.

(** The bytes of [tree], parsed again under the hardened parser. *)
Definition reparsed (w : World) (tree : ET.ElementTree) : ET.node + string :=
  ET_fromstring w (ET_tostring w tree true "utf-8") secure_parser.

(** ... and the rewrite returns, its serialisation parses and the engine
    compiles it. *)
Definition compiled (w : World) (args : Namespace) (xml_doc : ET.ElementTree)
    (schema : XMLSchema w) : Prop :=
  exists xsd_tree rewritten xsd_doc,
    loaded w args xsd_tree xml_doc /\
    rewrite_schema_imports_in_memory (realpath w) (stat_eloop w) xsd_tree
      (schema_dir_of args)
      = Val rewritten /\
    reparsed w rewritten = inl xsd_doc /\
    ET_XMLSchema w xsd_doc = inl schema.

(** The rewritten schema of a run does not parse back. *)
Definition reparse_fails (w : World) (args : Namespace) : Prop :=
  exists xsd_tree xml_doc rewritten e,
    loaded w args xsd_tree xml_doc /\
    rewrite_schema_imports_in_memory (realpath w) (stat_eloop w) xsd_tree
      (schema_dir_of args) = Val rewritten /\
    reparsed w rewritten = inr e.

(** The failures that the program reports itself: a path with the
    marker; a directory or file that is not there; a load that ends in
    an [XMLSyntaxError] or an [OSError]; a rewrite that raises; a schema
    that the engine rejects. *)
Definition operational_failure (w : World) (args : Namespace) : Prop :=
  paths_clean args = false \/
  (paths_clean args = true /\
   first_refusal (stat_answers w args) = Some (Answer false)) \/
  (checks_pass w args = true /\
   exists e, first_fault (parse_answers w args) = Some (SyntaxFault e) \/
             first_fault (parse_answers w args) = Some (ReadFault e)) \/
  (exists xsd_tree xml_doc e,
      loaded w args xsd_tree xml_doc /\
      rewrite_schema_imports_in_memory (realpath w) (stat_eloop w) xsd_tree
        (schema_dir_of args) = Exc e) \/
  (exists xsd_tree xml_doc rewritten xsd_doc error_log,
      loaded w args xsd_tree xml_doc /\
      rewrite_schema_imports_in_memory (realpath w) (stat_eloop w) xsd_tree
        (schema_dir_of args) = Val rewritten /\
      reparsed w rewritten = inl xsd_doc /\
      ET_XMLSchema w xsd_doc = inr error_log).

(** The exceptions that no handler of the program names: the [OSError]
    of an existence check, and what a parse raises besides
    [XMLSyntaxError] and [OSError]. *)
Definition unhandled (w : World) (args : Namespace) (e : exception) : Prop :=
  (paths_clean args = true /\
   exists detail, first_refusal (stat_answers w args) = Some (StatFault detail) /\
                  e = OSError detail) \/
  (checks_pass w args = true /\
   exists class detail,
     first_fault (parse_answers w args) = Some (OtherFault class detail) /\
     e = OtherException class detail).

(** The result of a run, read off the answers of the world: after an
    existence check, after a load ... *)
Definition after_stat (o : stat_outcome) (rest : result Z) : result Z :=
  match o with
  | Answer true => rest
  | Answer false => Val 2%Z
  | StatFault e => Exc (OSError e)
  end.

Definition after_parse (o : parse_outcome) (rest : ET.ElementTree -> result Z)
  : result Z :=
  match o with
  | Parsed tree => rest tree
  | SyntaxFault _ | ReadFault _ => Val 2%Z
  | OtherFault class e => Exc (OtherException class e)
  end.

(** ... and once the three trees are loaded. *)
Definition after_loads (w : World) (args : Namespace)
    (xsd_tree xml_doc : ET.ElementTree) : result Z :=
  match rewrite_schema_imports_in_memory (realpath w) (stat_eloop w) xsd_tree
          (schema_dir_of args) with
  | Exc (RuntimeError _ _) => Val 2%Z
  | Exc e => Exc e
  | Val rewritten =>
      match reparsed w rewritten with
      | inr e => Exc (XMLSyntaxError e)
      | inl xsd_doc =>
          match ET_XMLSchema w xsd_doc with
          | inr _ => Val 2%Z
          | inl schema =>
              if schema_validate w schema xml_doc then Val 0%Z else Val 1%Z
          end
      end
  end.

Definition run_result (w : World) (args : Namespace) : result Z :=
  if negb (paths_clean args) then Val 2%Z else
  after_stat (fs_is_dir w (schema_dir_of args)) (
  after_stat (fs_is_file w (schema_dir_of args </> "FSA029-Schema.xsd")) (
  after_stat (fs_is_file w (schema_dir_of args </> "CommonTypes-Schema.xsd")) (
  after_stat (fs_is_file w (submission_of args)) (
  after_parse (parse_file w (schema_dir_of args </> "FSA029-Schema.xsd")) (fun xsd_tree =>
  after_parse (parse_file w (schema_dir_of args </> "CommonTypes-Schema.xsd")) (fun _ =>
  after_parse (parse_file w (submission_of args)) (fun xml_doc =>
    after_loads w args xsd_tree xml_doc))))))).

(** The events [compile_schema] leaves before it calls the compiler. *)
Definition compile_events (w : World) (tree : ET.ElementTree) : list event :=
  [NewParser secure_parser; ToString true "utf-8";
   FromString (ET_tostring w tree true "utf-8") secure_parser].

(** An event that parses XML. *)
Definition is_load (ev : event) : bool :=
  match ev with
  | Parse _ _ | FromString _ _ => true
  | _ => false
  end.

(** The parser configuration an event builds or uses. *)
Definition uses_parser (ev : event) : option XMLParser :=
  match ev with
  | NewParser cfg | Parse _ cfg | FromString _ cfg => Some cfg
  | _ => None
  end.

Definition hardened_event (ev : event) : Prop :=
  match uses_parser ev with
  | Some cfg => cfg = secure_parser
  | None => True
  end.

(** What the specification asks of the compiler: serialise with a
    declaration in UTF-8, parse the bytes again under the hardened
    configuration, compile the tree that comes out. *)
Definition compile_by_reparse (w : World) (tree : ET.ElementTree)
  : option (XMLSchema w) :=
  let bytes := ET_tostring w tree true "utf-8" in
  match ET_fromstring w bytes secure_parser with
  | inl fresh =>
      match ET_XMLSchema w fresh with
      | inl schema => Some schema
      | inr _ => None
      end
  | inr _ => None
  end.

(** ** Inputs used in the examples *)

Definition xs_import (loc : string) : ET.node :=
  ET.Element (xs "import")
    [("namespace", "http://www.fsa.gov.uk/XMLSchema/FSAHSFFeedback-v1-2");
     ("schemaLocation", loc)] "" [] "".

Definition schema_with (cs : list ET.node) : ET.ElementTree :=
  ET.mkTree "" (ET.Element (xs "schema") [("version", "4")] "" cs "").

(** A file system without symbolic links, working directory "/". *)
Definition no_links : Pathlib.PurePosixPath -> list string :=
  Pathlib.realpath_lexical [].

Definition no_loops : Pathlib.PurePosixPath -> option string := fun _ => None.

(** A file system in which the entry "/srv/schemas/loop.xsd" is a
    symbolic link to itself. *)
Definition one_loop (p : Pathlib.PurePosixPath) : option string :=
  if String.eqb (Pathlib.str p) "/srv/schemas/loop.xsd"
  then Some "'/srv/schemas/loop.xsd'" else None.

(** A file system in which "/srv/schemas/CommonTypes-Schema.xsd" is a
    symbolic link to a file elsewhere. *)
Definition one_link (p : Pathlib.PurePosixPath) : list string :=
  if String.eqb (Pathlib.str p) "/srv/schemas/CommonTypes-Schema.xsd"
  then ["mnt"; "vendor"; "ct-14.xsd"] else no_links p.

Definition canonical_location : string :=
  "http://www.fsa.gov.uk/XMLSchema/CommonTypes/v14/CommonTypes-Schema.xsd".

(** A world in which every file is there and parses to the same small
    schema, and whose engine rejects the schema with two issues. *)
Definition rejecting_world : World :=
  {| XMLSchema := unit;
     realpath := no_links;
     stat_eloop := no_loops;
     fs_is_dir := fun _ => Answer true;
     fs_is_file := fun _ => Answer true;
     ET_parse := fun _ _ => Parsed (schema_with [xs_import canonical_location]);
     ET_tostring := fun _ _ _ => "<?xml version='1.0' encoding='utf-8'?>";
     ET_fromstring := fun _ _ => inl (ET.Element (xs "schema") [] "" [] "");
     ET_XMLSchema := fun _ =>
       inr [mkEntry 3 0 "element decl. 'a': unknown type";
            mkEntry 7 12 "attribute 'use': bad value"];
     schema_validate := fun _ _ => true;
     schema_error_log := fun _ _ => [] |}.

(** The same world with an engine that accepts the schema and finds two
    issues in every document. *)
Definition strict_world : World :=
  {| XMLSchema := unit;
     realpath := no_links;
     stat_eloop := no_loops;
     fs_is_dir := fun _ => Answer true;
     fs_is_file := fun _ => Answer true;
     ET_parse := fun _ _ => Parsed (schema_with [xs_import canonical_location]);
     ET_tostring := fun _ _ _ => "<?xml version='1.0' encoding='utf-8'?>";
     ET_fromstring := fun _ _ => inl (ET.Element (xs "schema") [] "" [] "");
     ET_XMLSchema := fun _ => inl tt;
     schema_validate := fun _ _ => false;
     schema_error_log := fun _ _ =>
       [mkEntry 2 0 "Element 'b': not expected"; mkEntry 2 0 "Element 'b': not expected"] |}.

(** ** Counting what a run does *)

Definition is_stat (ev : event) : bool :=
  match ev with Stat _ _ => true | _ => false end.

Definition is_parse (ev : event) : bool :=
  match ev with Parse _ _ => true | _ => false end.

Definition is_stderr (ev : event) : bool :=
  match ev with Stderr _ => true | _ => false end.

Definition is_schema_validate (ev : event) : bool :=
  match ev with SchemaValidate => true | _ => false end.

(** How many events of a kind a trace holds. *)
Definition count (kind : event -> bool) (tr : list event) : nat :=
  length (List.filter kind tr).

(** The world [w] with another answer to [ET.parse]. *)
Definition with_parse (w : World) (parse : string -> XMLParser -> parse_outcome) : World :=
  {| XMLSchema := XMLSchema w;
     realpath := realpath w;
     stat_eloop := stat_eloop w;
     fs_is_dir := fs_is_dir w;
     fs_is_file := fs_is_file w;
     ET_parse := parse;
     ET_tostring := ET_tostring w;
     ET_fromstring := ET_fromstring w;
     ET_XMLSchema := ET_XMLSchema w;
     schema_validate := schema_validate w;
     schema_error_log := schema_error_log w |}.

(** A world in which every file is there and parses, but the serialiser
    writes bytes that do not parse back. *)
Definition garbling_world : World :=
  {| XMLSchema := unit;
     realpath := no_links;
     stat_eloop := no_loops;
     fs_is_dir := fun _ => Answer true;
     fs_is_file := fun _ => Answer true;
     ET_parse := fun _ _ => Parsed (schema_with [xs_import canonical_location]);
     ET_tostring := fun _ _ _ => "<?xml version='1.0' encoding='utf-8'?><xs:schema";
     ET_fromstring := fun _ _ => inr "Couldn't find end of Start Tag schema, line 1";
     ET_XMLSchema := fun _ => inl tt;
     schema_validate := fun _ _ => true;
     schema_error_log := fun _ _ => [] |}.

(** An [ET.parse] that answers as [strict_world] does, except that the
    common-types file holds an empty schema. *)
Definition empty_common_types (s : string) (cfg : XMLParser) : parse_outcome :=
  if String.eqb s "/srv/schemas/CommonTypes-Schema.xsd" then Parsed (schema_with [])
  else ET_parse strict_world s cfg.

(** The world [w] with other answers to the existence checks. *)
Definition with_stat (w : World) (dir file : Pathlib.PurePosixPath -> stat_outcome) : World :=
  {| XMLSchema := XMLSchema w;
     realpath := realpath w;
     stat_eloop := stat_eloop w;
     fs_is_dir := dir;
     fs_is_file := file;
     ET_parse := ET_parse w;
     ET_tostring := ET_tostring w;
     ET_fromstring := ET_fromstring w;
     ET_XMLSchema := ET_XMLSchema w;
     schema_validate := schema_validate w;
     schema_error_log := schema_error_log w |}.

(** The world [w] with other answers of the [stat] inside [resolve]. *)
Definition with_loops (w : World) (loops : Pathlib.PurePosixPath -> option string) : World :=
  {| XMLSchema := XMLSchema w;
     realpath := realpath w;
     stat_eloop := loops;
     fs_is_dir := fs_is_dir w;
     fs_is_file := fs_is_file w;
     ET_parse := ET_parse w;
     ET_tostring := ET_tostring w;
     ET_fromstring := ET_fromstring w;
     ET_XMLSchema := ET_XMLSchema w;
     schema_validate := schema_validate w;
     schema_error_log := schema_error_log w |}.

(** * Proofs *)

#[local] Set Warnings "-clear-no-such-hyp".

(** ** Strings *)

Lemma append_assoc (a b c : string) : (a +:+ b) +:+ c = a +:+ (b +:+ c).
Proof. induction a as [|x a IH]; simpl; [done|by f_equal]. Qed.

Lemma append_nil_r (a : string) : a +:+ "" = a.
Proof. induction a as [|x a IH]; simpl; [done|by f_equal]. Qed.

Lemma mem_append c a b : Str.mem c (a +:+ b) = Str.mem c a || Str.mem c b.
Proof. induction a as [|x a IH]; simpl; [done|]. by rewrite IH, orb_assoc. Qed.

Lemma prefix_mem m : forall s c,
  String.prefix m s = true -> Str.mem c m = true -> Str.mem c s = true.
Proof.
  induction m as [|x m IH]; intros s c; [done|].
  destruct s as [|y s]; [done|]. cbn.
  destruct (ascii_dec x y) as [->|]; [|done].
  intros Hp [H|H]%orb_true_iff; apply orb_true_iff; [by left|right; eauto].
Qed.

Lemma contains_mem m s c :
  Str.contains m s = true -> Str.mem c m = true -> Str.mem c s = true.
Proof.
  induction s as [|y s IH]; cbn [Str.contains].
  - by destruct m.
  - intros [Hp|Hc]%orb_true_iff Hm.
    + apply (prefix_mem m (String y s) c Hp Hm).
    + apply orb_true_iff. right. by apply IH.
Qed.

Lemma ends_with_mem c m : ends_with c m = true -> Str.mem c m = true.
Proof.
  induction m as [|x m IH]; [done|]. cbn. destruct m as [|y m].
  - intros ->%Ascii.eqb_eq. by rewrite Ascii.eqb_refl.
  - intros H. apply orb_true_iff. right. by apply IH.
Qed.

Lemma prefix_app_tail c m : forall a b,
  ends_with c m = true -> Str.mem c b = false ->
  String.prefix m (a +:+ b) = String.prefix m a.
Proof.
  induction m as [|x m IH]; intros a b Hend Hb; [done|].
  destruct a as [|y a].
  - cbn [String.append]. destruct (String.prefix (String x m) b) eqn:Hp; [|by destruct b].
    pose proof (prefix_mem _ _ c Hp (ends_with_mem _ _ Hend)). congruence.
  - change (String y a +:+ b) with (String y (a +:+ b)).
    cbn [String.prefix]. destruct (ascii_dec x y); [|done].
    destruct m as [|z m]; [by destruct (a +:+ b), a|].
    apply IH; done.
Qed.

(** A needle that ends in [c] is found in [a +:+ b], with no [c] in
    [b], only where it is found in [a]. *)
Lemma contains_app_tail c m a b :
  ends_with c m = true -> Str.mem c b = false ->
  Str.contains m (a +:+ b) = Str.contains m a.
Proof.
  intros Hend Hb. induction a as [|y a IH].
  - cbn [String.append]. destruct (Str.contains m b) eqn:Hc.
    + pose proof (contains_mem _ _ c Hc (ends_with_mem _ _ Hend)). congruence.
    + by destruct m.
  - cbn [String.append Str.contains]. rewrite IH. f_equal.
    apply (prefix_app_tail c m (String y a) b Hend Hb).
Qed.

Lemma contains_app_l m a b :
  Str.contains m a = true -> Str.contains m (a +:+ b) = true.
Proof.
  assert (Hp : forall m a, String.prefix m a = true -> String.prefix m (a +:+ b) = true).
  { clear. induction m as [|x m IH]; intros a; [by destruct (a +:+ b)|].
    destruct a as [|y a]; [by cbn|]. cbn. destruct (ascii_dec x y); [apply IH|done]. }
  induction a as [|y a IH]; cbn [Str.contains].
  - destruct m; [by destruct b|by cbn].
  - change (String y a +:+ b) with (String y (a +:+ b)). cbn [Str.contains]. intros [H|H]%orb_true_iff; apply orb_true_iff; [left|right; by apply IH].
    apply (Hp m (String y a) H).
Qed.

Lemma prefix_app m b : String.prefix m (m +:+ b) = true.
Proof.
  induction m as [|x m IH]; [by destruct b|].
  change (String x m +:+ b) with (String x (m +:+ b)). cbn [String.prefix].
  by destruct (ascii_dec x x).
Qed.

Lemma contains_app_r m a b :
  Str.contains m b = true -> Str.contains m (a +:+ b) = true.
Proof.
  intros Hb. induction a as [|y a IH]; [done|].
  change (String y a +:+ b) with (String y (a +:+ b)). cbn [Str.contains].
  by rewrite IH, orb_true_r.
Qed.

Lemma contains_infix a m b : Str.contains m (a +:+ m +:+ b) = true.
Proof.
  apply contains_app_r.
  destruct (m +:+ b) eqn:E; cbn [Str.contains]; rewrite <- E, prefix_app; done.
Qed.

(** ** Percent-encoding *)

Lemma quote_from_bytes_app a b :
  Urllib.quote_from_bytes (a +:+ b)
  = Urllib.quote_from_bytes a +:+ Urllib.quote_from_bytes b.
Proof. induction a as [|x a IH]; cbn; [done|]. by rewrite IH, append_assoc. Qed.

Lemma quote_byte_backslash c : Str.mem "\" (Urllib.quote_byte c) = false.
Proof. destruct c as [[] [] [] [] [] [] [] []]; reflexivity. Qed.

Lemma quote_byte_slash c : Str.mem "/" (Urllib.quote_byte c) = Ascii.eqb "/" c.
Proof. destruct c as [[] [] [] [] [] [] [] []]; reflexivity. Qed.

Lemma quote_from_bytes_backslash s : Str.mem "\" (Urllib.quote_from_bytes s) = false.
Proof.
  induction s as [|x s IH]; cbn; [done|].
  by rewrite mem_append, quote_byte_backslash, IH.
Qed.

Lemma quote_from_bytes_slash s :
  Str.mem "/" (Urllib.quote_from_bytes s) = Str.mem "/" s.
Proof.
  induction s as [|x s IH]; cbn; [done|].
  by rewrite mem_append, quote_byte_slash, IH.
Qed.

(** ** Splitting *)

Lemma split_aux_no_sep is_sep s : forall acc,
  (forall c, Str.mem c s = true -> is_sep c = false) ->
  Str.split_aux is_sep acc s = [acc +:+ s].
Proof.
  induction s as [|x s IH]; intros acc Hs; cbn [Str.split_aux].
  - by rewrite append_nil_r.
  - rewrite (Hs x) by (cbn; by rewrite Ascii.eqb_refl).
    rewrite IH, append_assoc; [done|].
    intros c Hc. apply Hs. cbn. by rewrite Hc, orb_true_r.
Qed.

Lemma split_aux_ext sep1 sep2 s : forall acc,
  (forall c, Str.mem c s = true -> sep1 c = sep2 c) ->
  Str.split_aux sep1 acc s = Str.split_aux sep2 acc s.
Proof.
  induction s as [|x s IH]; intros acc Hs; cbn [Str.split_aux]; [done|].
  rewrite (Hs x) by (cbn; by rewrite Ascii.eqb_refl).
  assert (Hs' : forall c, Str.mem c s = true -> sep1 c = sep2 c).
  { intros c Hc. apply Hs. cbn. by rewrite Hc, orb_true_r. }
  by rewrite !(IH _ Hs').
Qed.

Lemma split_aux_pieces s : forall acc,
  Str.mem "/" acc = false ->
  Forall (fun x => Str.mem "/" x = false) (Str.split_aux Str.is_slash acc s).
Proof.
  induction s as [|x s IH]; intros acc Hacc; cbn [Str.split_aux].
  - by repeat constructor.
  - destruct (Str.is_slash x) eqn:Hx.
    + constructor; [done|]. by apply IH.
    + apply IH. rewrite mem_append, Hacc. cbn [Str.mem orb].
      unfold Str.is_slash in Hx. rewrite Ascii.eqb_sym, Hx. done.
Qed.

Lemma split_aux_nonempty is_sep s : forall acc, Str.split_aux is_sep acc s <> [].
Proof.
  induction s as [|x s IH]; intros acc; cbn [Str.split_aux]; [done|].
  destruct (is_sep x); [done|apply IH].
Qed.

Lemma last_split_aux_app a q : forall acc,
  Str.mem "/" q = false ->
  List.last (Str.split_aux Str.is_slash acc (a +:+ String "/" q)) "" = q.
Proof.
  intros acc Hq. revert acc.
  assert (Hsplit : forall acc, Str.split_aux Str.is_slash acc q = [acc +:+ q]).
  { intros acc. apply split_aux_no_sep. intros c Hc. unfold Str.is_slash.
    apply Ascii.eqb_neq. intros ->. congruence. }
  induction a as [|x a IH]; intros acc.
  - cbn. by rewrite Hsplit.
  - change (String x a +:+ String "/" q) with (String x (a +:+ String "/" q)).
    cbn [Str.split_aux]. destruct (Str.is_slash x).
    + specialize (IH "").
      pose proof (split_aux_nonempty Str.is_slash (a +:+ String "/" q) "") as Hne.
      destruct (Str.split_aux Str.is_slash "" (a +:+ String "/" q)); done.
    + apply IH.
Qed.

(** ** Paths *)

Lemma join_snoc ps n :
  ps <> [] -> Str.join "/" (ps ++ [n]) = Str.join "/" ps +:+ "/" +:+ n.
Proof.
  unfold Str.join. induction ps as [|p ps IH]; [done|]. intros _.
  destruct ps as [|p' ps]; [done|].
  cbn [app String.concat] in *. rewrite IH by done.
  by rewrite !append_assoc.
Qed.

Lemma str_absolute ps :
  Pathlib.str (Pathlib.mkPath "/" ps) = "/" +:+ Str.join "/" ps.
Proof. reflexivity. Qed.

(** The URI of an entry [n] of the directory [ps]. *)
Lemma as_uri_child ps n :
  Pathlib.as_uri (Pathlib.mkPath "/" (ps ++ [n]))
  = (if ps is [] then "file://" else Pathlib.as_uri (Pathlib.mkPath "/" ps))
      +:+ "/" +:+ Urllib.quote_from_bytes n.
Proof.
  unfold Pathlib.as_uri. rewrite !str_absolute. destruct ps as [|p ps]; [done|].
  rewrite join_snoc by done. generalize (Str.join "/" (p :: ps)) as J. intros J.
  replace ("/" +:+ J +:+ "/" +:+ n) with (("/" +:+ J) +:+ ("/" +:+ n))
    by apply append_assoc.
  rewrite quote_from_bytes_app.
  change (Urllib.quote_from_bytes ("/" +:+ n)) with ("/" +:+ Urllib.quote_from_bytes n).
  by rewrite append_assoc.
Qed.

Lemma as_uri_backslash p : Str.mem "\" (Pathlib.as_uri p) = false.
Proof. unfold Pathlib.as_uri. by rewrite mem_append, quote_from_bytes_backslash. Qed.

Lemma has_forbidden_as_uri p :
  has_forbidden (Pathlib.as_uri p) = Str.contains "/CommonTypes/v14/" (Pathlib.as_uri p).
Proof.
  unfold has_forbidden.
  destruct (Str.contains "\CommonTypes\v14\" (Pathlib.as_uri p)) eqn:Hc;
    [|by rewrite orb_false_r].
  pose proof (contains_mem _ _ "\"%char Hc eq_refl) as Hm.
  by rewrite as_uri_backslash in Hm.
Qed.

Lemma last_Forall {A} (P : A -> Prop) (l : list A) d :
  Forall P l -> P d -> P (List.last l d).
Proof.
  induction l as [|x l IH]; [done|]. intros Hl Hd.
  inversion Hl; subst. destruct l; [done|]. by apply IH.
Qed.

Lemma filter_Forall {A} (P : A -> Prop) keep (l : list A) :
  Forall P l -> Forall P (List.filter keep l).
Proof.
  induction 1 as [|x l Hx Hl IH]; cbn; [constructor|].
  destruct (keep x); [by constructor|done].
Qed.

Lemma name_no_slash loc : Str.mem "/" (Pathlib.name (Pathlib.Path loc)) = false.
Proof.
  unfold Pathlib.name, Pathlib.Path. destruct (Pathlib.splitroot loc) as [r rel].
  cbn [Pathlib.tail]. apply (last_Forall (fun x => Str.mem "/" x = false)); [|done].
  apply filter_Forall, split_aux_pieces. done.
Qed.

Lemma split_on_leading_slash s :
  Pathlib.starts_with_slash s = true ->
  Str.split_on Str.is_slash s = "" :: Str.split_on Str.is_slash (Pathlib.drop1 s).
Proof.
  destruct s as [|x s]; [done|]. unfold Str.split_on. cbn. by intros ->.
Qed.

(** The components are those of the whole string: the root only takes
    leading slashes away. *)
Lemma Path_tail s :
  Pathlib.tail (Pathlib.Path s)
  = List.filter Pathlib.is_component (Str.split_on Str.is_slash s).
Proof.
  unfold Pathlib.Path, Pathlib.splitroot.
  destruct (Pathlib.starts_with_slash s) eqn:H1; cbn [negb]; [|done].
  rewrite (split_on_leading_slash s H1).
  destruct (Pathlib.starts_with_slash (Pathlib.drop1 s)) eqn:H2; cbn [negb orb]; [|done].
  destruct (Pathlib.starts_with_slash (Pathlib.drop1 (Pathlib.drop1 s))); [done|].
  by rewrite (split_on_leading_slash _ H2).
Qed.

(** Without a backslash in it, a location has the same last segment
    whichever separators are looked for. *)
Lemma name_any_separator loc :
  Str.mem "\" loc = false ->
  Pathlib.name (Pathlib.Path loc) = file_name_any_separator loc.
Proof.
  intros Hloc. unfold Pathlib.name, file_name_any_separator. rewrite Path_tail.
  do 2 f_equal. unfold Str.split_on. apply split_aux_ext.
  intros c Hc. unfold Str.is_backslash.
  destruct (Ascii.eqb_spec c "\") as [->|]; [congruence|by rewrite orb_false_r].
Qed.

Section LocalUri.
Variable realpath : Pathlib.PurePosixPath -> list string.
Variable d : Pathlib.PurePosixPath.

Lemma local_uri_in_place loc :
  resolves_in_place realpath d loc ->
  local_uri realpath d loc
  = (if realpath d is [] then "file://" else Pathlib.as_uri (Pathlib.real realpath d))
      +:+ "/" +:+ Urllib.quote_from_bytes (Pathlib.name (Pathlib.Path loc)).
Proof.
  intros Hin. unfold local_uri, Pathlib.real. rewrite Hin. apply as_uri_child.
Qed.

Lemma local_uri_final_segment loc :
  resolves_in_place realpath d loc ->
  final_segment (local_uri realpath d loc)
  = Urllib.quote_from_bytes (Pathlib.name (Pathlib.Path loc)).
Proof.
  intros Hin. rewrite (local_uri_in_place loc Hin). unfold final_segment, Str.split_on.
  apply last_split_aux_app. by rewrite quote_from_bytes_slash, name_no_slash.
Qed.

Lemma local_uri_marker_free loc :
  resolves_in_place realpath d loc ->
  has_forbidden (Pathlib.as_uri (Pathlib.real realpath d) +:+ "/") = false ->
  has_forbidden (local_uri realpath d loc) = false.
Proof.
  intros Hin Hdir. unfold local_uri at 1. rewrite has_forbidden_as_uri.
  fold (local_uri realpath d loc). rewrite (local_uri_in_place loc Hin).
  rewrite <- append_assoc.
  rewrite (contains_app_tail "/"); [|done|by rewrite quote_from_bytes_slash, name_no_slash].
  destruct (realpath d) as [|p ps] eqn:Hd; [done|].
  apply orb_false_iff in Hdir as [Hdir _]. exact Hdir.
Qed.
End LocalUri.

(** ** Induction over trees *)

Section NodeInd.
Variable P : ET.node -> Prop.
Hypothesis HElement : forall t a x cs tl,
    Forall P cs -> P (ET.Element t a x cs tl).
Hypothesis HComment : forall x tl, P (ET.Comment x tl).
Hypothesis HPI : forall tg x tl, P (ET.ProcessingInstruction tg x tl).

Lemma node_forall_ind : forall n, P n.
Proof.
  fix IH 1. intros [t a x cs tl | x tl | tg x tl].
  - apply HElement. induction cs as [|c cs IHcs]; constructor; [apply IH | exact IHcs].
  - apply HComment.
  - apply HPI.
Qed.
End NodeInd.

Section TreeUpdates.
Variable g : list (string * string) -> list (string * string).
Variable f : ET.node -> ET.node.
Hypothesis f_on_attrib : forall n, f n = on_attrib g n.

Lemma update_at_child t a x pre c post tl q (h : ET.node -> ET.node) :
  ET.update_at (length pre :: q) h (ET.Element t a x (pre ++ c :: post) tl)
  = ET.Element t a x (pre ++ ET.update_at q h c :: post) tl.
Proof.
  simpl. f_equal.
  replace (length pre) with (length pre + 0) by lia.
  by rewrite alter_app_r.
Qed.

Lemma foldl_update_child t a x pre post tl (h : ET.node -> ET.node) qs : forall c,
  foldl (fun r p => ET.update_at p h r)
        (ET.Element t a x (pre ++ c :: post) tl)
        (List.map (cons (length pre)) qs)
  = ET.Element t a x
      (pre ++ foldl (fun r p => ET.update_at p h r) c qs :: post) tl.
Proof.
  induction qs as [|q qs IH]; intros c; [done|].
  cbn [List.map foldl]. rewrite update_at_child. apply IH.
Qed.

Lemma update_at_on_attrib i q (h : ET.node -> ET.node) n :
  ET.update_at (i :: q) h (f n) = f (ET.update_at (i :: q) h n).
Proof. rewrite !f_on_attrib. by destruct n. Qed.

Lemma foldl_update_on_attrib (h : ET.node -> ET.node) qs : forall n,
  Forall (fun q => q <> []) qs ->
  foldl (fun r p => ET.update_at p h r) (f n) qs
  = f (foldl (fun r p => ET.update_at p h r) n qs).
Proof.
  induction qs as [|q qs IH]; intros n Hq; [done|].
  inversion Hq as [|? ? Hne Hqs]; subst. simpl.
  destruct q as [|i q]; [done|].
  rewrite update_at_on_attrib. by apply IH.
Qed.

Lemma walk_nonempty d t cs : forall i, Forall (fun q => q <> []) (ET.walk d t i cs).
Proof.
  induction cs as [|c cs IH]; intros i; simpl; [constructor|].
  apply Forall_app; split; [destruct (ET.has_tag t c); by repeat constructor|].
  apply Forall_app; split; [|apply IH].
  apply Forall_forall. intros q Hq. apply list_elem_of_In, in_map_iff in Hq.
  by destruct Hq as (? & <- & _).
Qed.

Lemma iterdescendants_nonempty t n : Forall (fun q => q <> []) (ET.iterdescendants t n).
Proof. destruct n; simpl; [apply walk_nonempty | constructor | constructor]. Qed.

Lemma foldl_walk tag t a x tl cs : forall pre,
  Forall (fun c => foldl (fun r p => ET.update_at p f r) c (ET.iterdescendants tag c)
                   = map_below (ET.has_tag tag) f c) cs ->
  foldl (fun r p => ET.update_at p f r)
        (ET.Element t a x (pre ++ cs) tl)
        (ET.walk (ET.iterdescendants tag) tag (length pre) cs)
  = ET.Element t a x
      (pre ++ List.map (fun c => let c' := map_below (ET.has_tag tag) f c in
                                  if ET.has_tag tag c then f c' else c') cs) tl.
Proof.
  induction cs as [|c cs IH]; intros pre Hcs; [done|].
  inversion Hcs as [|? ? Hc Hcs']; subst.
  cbn [ET.walk List.map]. rewrite !foldl_app.
  assert (Hstep : forall c0,
    foldl (fun r p => ET.update_at p f r)
      (foldl (fun r p => ET.update_at p f r)
             (ET.Element t a x (pre ++ c0 :: cs) tl)
             (List.map (cons (length pre)) (ET.iterdescendants tag c)))
      (ET.walk (ET.iterdescendants tag) tag (S (length pre)) cs)
    = ET.Element t a x
        (pre ++ foldl (fun r p => ET.update_at p f r) c0 (ET.iterdescendants tag c)
             :: List.map (fun c => let c' := map_below (ET.has_tag tag) f c in
                                    if ET.has_tag tag c then f c' else c') cs) tl).
  { intros c0. rewrite foldl_update_child.
    specialize (IH (pre ++ [foldl (fun r p => ET.update_at p f r) c0 (ET.iterdescendants tag c)]) Hcs').
    rewrite length_app in IH. cbn [length] in IH.
    replace (length pre + 1) with (S (length pre)) in IH by lia.
    rewrite <- !app_assoc in IH. exact IH. }
  destruct (ET.has_tag tag c) eqn:Htag.
  - cbn [foldl]. rewrite update_at_child. cbn [ET.update_at].
    rewrite Hstep. rewrite foldl_update_on_attrib by apply iterdescendants_nonempty.
    by rewrite Hc.
  - cbn [foldl]. rewrite Hstep. by rewrite Hc.
Qed.

Lemma foldl_iterdescendants tag n :
  foldl (fun r p => ET.update_at p f r) n (ET.iterdescendants tag n)
  = map_below (ET.has_tag tag) f n.
Proof.
  induction n as [t a x cs tl IH| |] using node_forall_ind; [|done|done].
  simpl. apply (foldl_walk tag t a x tl cs [] IH).
Qed.
End TreeUpdates.

Section MapBelow.
Variable g : list (string * string) -> list (string * string).
Variable f : ET.node -> ET.node.
Hypothesis f_on_attrib : forall n, f n = on_attrib g n.

Lemma has_tag_on_attrib t n : ET.has_tag t (f n) = ET.has_tag t n.
Proof. rewrite f_on_attrib. by destruct n. Qed.

Lemma has_tag_map_below t sel (h : ET.node -> ET.node) n :
  ET.has_tag t (map_below sel h n) = ET.has_tag t n.
Proof. by destruct n. Qed.

Lemma map_below_on_attrib sel n :
  map_below sel f (f n) = f (map_below sel f n).
Proof. rewrite !f_on_attrib. by destruct n. Qed.

Lemma map_below_ext sel1 sel2 n :
  (forall m, sel1 m = sel2 m) -> map_below sel1 f n = map_below sel2 f n.
Proof.
  intros Hsel.
  induction n as [t a x cs tl IH| |] using node_forall_ind; [|done|done].
  cbn [map_below]. f_equal.
  apply map_ext_Forall. eapply Forall_impl; [exact IH|].
  intros c Hc. cbn beta zeta. by rewrite Hc, Hsel.
Qed.

(** Two passes for two different tags are one pass for both. *)
Lemma map_below_two t1 (sel : ET.node -> bool) n :
  (forall m, ET.has_tag t1 m = true -> sel m = false) ->
  (forall m, sel (f m) = sel m) ->
  (forall m, sel (map_below (ET.has_tag t1) f m) = sel m) ->
  map_below sel f (map_below (ET.has_tag t1) f n)
  = map_below (fun m => ET.has_tag t1 m || sel m) f n.
Proof.
  intros Hdisj Hself Hselm.
  induction n as [t a x cs tl IH| |] using node_forall_ind; [|done|done].
  cbn [map_below]. f_equal. rewrite List.map_map.
  apply map_ext_Forall. eapply Forall_impl; [exact IH|].
  intros c Hc. cbn beta zeta.
  destruct (ET.has_tag t1 c) eqn:H1.
  - rewrite Hself, Hselm, (Hdisj _ H1). cbn [orb].
    by rewrite map_below_on_attrib, Hc.
  - rewrite Hselm. cbn [orb]. by rewrite Hc.
Qed.
End MapBelow.

Section RewritePass.
Variable realpath : Pathlib.PurePosixPath -> list string.
Variable schema_dir : Pathlib.PurePosixPath.

Lemma rewritten_node_on_attrib n :
  rewritten_node realpath schema_dir n
  = on_attrib (rewrite_attrib realpath schema_dir) n.
Proof.
  destruct n as [t a x cs tl| |]; [|done|done].
  unfold rewritten_node, on_attrib, rewrite_attrib. cbn [ET.get].
  destruct (ET.attrib_get a "schemaLocation") as [loc|]; [|done].
  destruct (String.eqb loc ""); [done|].
  by destruct (has_forbidden loc).
Qed.

Lemma is_reference_on_attrib g n : is_reference (on_attrib g n) = is_reference n.
Proof. by destruct n. Qed.

Lemma is_reference_map_below sel h n : is_reference (map_below sel h n) = is_reference n.
Proof. by destruct n. Qed.

Lemma has_tag_exclusive t1 t2 n :
  t1 <> t2 -> ET.has_tag t1 n = true -> ET.has_tag t2 n = false.
Proof.
  intros Hne. destruct n as [t a x cs tl| |]; cbn; try done.
  intros H1%String.eqb_eq. subst. by apply String.eqb_neq.
Qed.

(** The loops of a first pass that nothing ends early are one walk
    over the tree that runs the loop body on every reference node below
    the root. *)
Lemma completed_pass_map_below root :
  completed_pass realpath schema_dir root
  = map_below is_reference (rewritten_node realpath schema_dir) root.
Proof.
  unfold completed_pass, reference_tags. cbn [foldl].
  pose proof rewritten_node_on_attrib as Hg.
  rewrite !(foldl_iterdescendants _ _ Hg).
  rewrite (map_below_two _ _ Hg (xs "include") (ET.has_tag (xs "redefine"))).
  - rewrite (map_below_two _ _ Hg (xs "import")
               (fun m => ET.has_tag (xs "include") m || ET.has_tag (xs "redefine") m)).
    + apply map_below_ext. intros m. unfold is_reference, reference_tags. cbn [existsb].
      destruct (ET.has_tag (xs "import") m), (ET.has_tag (xs "include") m),
        (ET.has_tag (xs "redefine") m); reflexivity.
    + intros m Hm.
      rewrite (has_tag_exclusive (xs "import") (xs "include") m), (has_tag_exclusive (xs "import") (xs "redefine") m); done.
    + intros m. by rewrite !(has_tag_on_attrib _ _ Hg).
    + intros m. by rewrite !has_tag_map_below.
  - intros m Hm. by apply (has_tag_exclusive (xs "include") (xs "redefine")).
  - intros m. by rewrite (has_tag_on_attrib _ _ Hg).
  - intros m. by rewrite has_tag_map_below.
Qed.
End RewritePass.

Lemma lookup_map {A B} (h : A -> B) (l : list A) i :
  List.map h l !! i = h <$> l !! i.
Proof. revert i. induction l as [|a l IH]; intros [|i]; cbn; auto. Qed.

Section NodeAt.
Variable g : list (string * string) -> list (string * string).
Variable f : ET.node -> ET.node.
Hypothesis f_on_attrib : forall n, f n = on_attrib g n.
Variable sel : ET.node -> bool.

Lemma children_of_on_attrib n : ET.children_of (f n) = ET.children_of n.
Proof. rewrite f_on_attrib. by destruct n. Qed.

Lemma node_at_on_attrib n i q : ET.node_at (f n) (i :: q) = ET.node_at n (i :: q).
Proof. cbn [ET.node_at]. by rewrite children_of_on_attrib. Qed.

(** The node at an address after the walk: the node that was there,
    its descendants treated, and [f] run on it when it is below the
    top and selected. *)
Lemma node_at_map_below p : forall n,
  ET.node_at (map_below sel f n) p
  = (fun m => (if below_top p && sel m then f else id)
                (map_below sel f m)) <$> ET.node_at n p.
Proof.
  induction p as [|i q IH]; intros n; [done|].
  destruct n as [t a x cs tl| |]; [|done|done].
  cbn [ET.node_at map_below ET.children_of].
  rewrite lookup_map.
  destruct (cs !! i) as [c|] eqn:Hc; [|done]. cbn [fmap option_fmap option_map].
  destruct q as [|j r].
  - cbn. by destruct (sel c).
  - specialize (IH c). cbn [below_top andb] in *.
    destruct (sel c); [rewrite node_at_on_attrib|]; exact IH.
Qed.
End NodeAt.

(** ** What the searches find *)

Section Searches.
Variable t : string.

Lemma In_walk d p cs : forall i,
  In p (ET.walk d t i cs) <->
  exists j c, cs !! j = Some c /\
    ((p = [i + j] /\ ET.has_tag t c = true) \/
     (exists q, p = (i + j) :: q /\ In q (d c))).
Proof.
  induction cs as [|c cs IH]; intros i; cbn [ET.walk].
  - split; [done|]. by intros (j & c & Hj & _).
  - rewrite !in_app_iff, in_map_iff, IH. split.
    + intros [H|[(q & <- & Hq)|(j & c' & Hj & H)]].
      * destruct (ET.has_tag t c) eqn:Ht; [|done].
        destruct H as [<-|[]]. exists 0, c. rewrite Nat.add_0_r. auto.
      * exists 0, c. rewrite Nat.add_0_r. eauto.
      * exists (S j), c'. rewrite <- Nat.add_succ_comm. auto.
    + intros (j & c' & Hj & H). destruct j as [|j].
      * injection Hj as <-. rewrite Nat.add_0_r in H.
        destruct H as [[-> Ht]|(q & -> & Hq)]; [left; rewrite Ht; by left|].
        right; left. eauto.
      * right; right. exists j, c'. rewrite Nat.add_succ_comm. auto.
Qed.

Lemma In_iterdescendants n : forall p,
  In p (ET.iterdescendants t n) <->
  below_top p = true /\ exists m, ET.node_at n p = Some m /\ ET.has_tag t m = true.
Proof.
  induction n as [tg a x cs tl IH| |] using node_forall_ind;
    [|intros [|i q]; (split; [done|]); cbn; by intros (? & m & ? & _) ..].
  intros p. cbn [ET.iterdescendants]. rewrite In_walk. cbn [plus].
  rewrite Forall_lookup in IH. split.
  - intros (j & c & Hj & [[-> Ht]|(q & -> & Hq)]).
    + split; [done|]. exists c. cbn. by rewrite Hj.
    + apply (IH _ _ Hj) in Hq as (Hq & m & Hm & Ht).
      split; [done|]. exists m. cbn. by rewrite Hj.
  - intros (Hp & m & Hm & Ht). destruct p as [|j q]; [done|].
    cbn in Hm. destruct (cs !! j) as [c|] eqn:Hj; [|done].
    exists j, c. split; [done|]. destruct q as [|k r].
    + left. by injection Hm as ->.
    + right. exists (k :: r). split; [done|]. apply (IH _ _ Hj). eauto.
Qed.

Lemma NoDup_walk d cs : forall i,
  Forall (fun c => NoDup (d c) /\ Forall (fun q => q <> []) (d c)) cs ->
  NoDup (ET.walk d t i cs).
Proof.
  induction cs as [|c cs IH]; intros i Hcs; cbn [ET.walk]; [constructor|].
  inversion Hcs as [|? ? [Hnd Hne] Hcs']; subst.
  assert (Hlater : forall p, In p (ET.walk d t (S i) cs) -> exists j q, p = j :: q /\ i < j).
  { intros p (j & c' & _ & [[-> _]|(q & -> & _)])%In_walk; eexists _, _; split; try done; lia. }
  apply NoDup_app; split;
    [destruct (ET.has_tag t c); [apply NoDup_singleton | apply NoDup_nil_2]|].
  split.
  - intros p Hp Hp'. destruct (ET.has_tag t c); [|by apply elem_of_nil in Hp].
    apply list_elem_of_singleton in Hp as ->.
    apply list_elem_of_In, in_app_iff in Hp' as [Hp'|Hp'].
    + apply in_map_iff in Hp' as (q & [= ->] & Hq).
      rewrite Forall_forall in Hne. apply list_elem_of_In in Hq. by apply (Hne [] Hq).
    + apply Hlater in Hp' as (j & q & [= <- _] & ?). lia.
  - apply NoDup_app; split; [|split; [|by apply IH]].
    + apply (NoDup_fmap_2 (cons i)) in Hnd. exact Hnd.
    + intros p Hp Hp'.
      apply list_elem_of_In, in_map_iff in Hp as (q & <- & _).
      apply list_elem_of_In, Hlater in Hp' as (j & q' & [= <- _] & ?). lia.
Qed.

Lemma NoDup_iterdescendants n : NoDup (ET.iterdescendants t n).
Proof.
  induction n as [tg a x cs tl IH| |] using node_forall_ind; [|constructor..].
  cbn [ET.iterdescendants]. apply NoDup_walk.
  eapply Forall_impl; [exact IH|]. intros c Hc. split; [done|].
  apply (iterdescendants_nonempty).
Qed.
End Searches.

Lemma is_reference_has_tag n :
  is_reference n = true <-> exists tag, In tag reference_tags /\ ET.has_tag (xs tag) n = true.
Proof. unfold is_reference. by rewrite existsb_exists. Qed.

Lemma In_reference_nodes root p :
  In p (reference_nodes root) <->
  below_top p = true /\ exists m, ET.node_at root p = Some m /\ is_reference m = true.
Proof.
  unfold reference_nodes. rewrite in_flat_map. split.
  - intros (tag & Htag & (Hp & m & Hm & Ht)%In_iterdescendants).
    split; [done|]. exists m. split; [done|]. apply is_reference_has_tag. eauto.
  - intros (Hp & m & Hm & (tag & Htag & Ht)%is_reference_has_tag).
    exists tag. split; [done|]. apply In_iterdescendants. eauto.
Qed.

Lemma NoDup_reference_nodes root : NoDup (reference_nodes root).
Proof.
  unfold reference_nodes, reference_tags. cbn [flat_map]. rewrite app_nil_r.
  assert (Hx : forall t1 t2 p, t1 <> t2 ->
            p ∈ ET.iterdescendants t1 root -> p ∈ ET.iterdescendants t2 root -> False).
  { intros t1 t2 p Hne (_ & m & Hm & H1)%list_elem_of_In%In_iterdescendants
      (_ & m' & Hm' & H2)%list_elem_of_In%In_iterdescendants.
    rewrite Hm in Hm'. injection Hm' as <-.
    by rewrite (has_tag_exclusive t1 t2 m Hne H1) in H2. }
  apply NoDup_app; split; [apply NoDup_iterdescendants|]. split.
  - intros p H1 [H2|H2]%elem_of_app.
    + by apply (Hx (xs "import") (xs "include") p).
    + by apply (Hx (xs "import") (xs "redefine") p).
  - apply NoDup_app; split; [apply NoDup_iterdescendants|].
    split; [|apply NoDup_iterdescendants].
    intros p H1 H2. by apply (Hx (xs "include") (xs "redefine") p).
Qed.

Lemma In_matching_references root p :
  In p (matching_references root) <->
  In p (reference_nodes root) /\ has_forbidden (location_at root p) = true.
Proof. unfold matching_references. apply filter_In. Qed.

Lemma NoDup_matching_references root : NoDup (matching_references root).
Proof. unfold matching_references. apply NoDup_ListNoDup, List.NoDup_filter, NoDup_ListNoDup, NoDup_reference_nodes. Qed.

Lemma has_forbidden_location_at root p :
  match ET.node_at root p with
  | Some node => has_forbidden (default "" (ET.get node "schemaLocation"))
  | None => false
  end = has_forbidden (location_at root p).
Proof. unfold location_at. by destruct (ET.node_at root p). Qed.

Lemma marker_remains_spec root :
  marker_remains root = true <->
  exists p, In p (reference_nodes root) /\ has_forbidden (location_at root p) = true.
Proof.
  unfold marker_remains, reference_nodes. rewrite existsb_exists. split.
  - intros (tag & Htag & (p & Hp & H)%existsb_exists).
    exists p. split; [apply in_flat_map; eauto|]. by rewrite <- has_forbidden_location_at.
  - intros (p & (tag & Htag & Hp)%in_flat_map & H).
    exists tag. split; [done|]. apply existsb_exists. exists p.
    by rewrite has_forbidden_location_at.
Qed.

Lemma marker_remains_matching root :
  marker_remains root = false <-> matching_references root = [].
Proof.
  split.
  - intros Hm. destruct (matching_references root) as [|p l] eqn:E; [done|].
    assert (Hp : In p (matching_references root)) by (rewrite E; by left).
    apply In_matching_references in Hp.
    assert (marker_remains root = true) by (apply marker_remains_spec; eauto).
    congruence.
  - intros E. destruct (marker_remains root) eqn:Hm; [|done].
    apply marker_remains_spec in Hm as (p & Hp).
    apply In_matching_references in Hp. rewrite E in Hp. destruct Hp.
Qed.

(** ** What the first pass does to a node *)

Lemma attrib_get_set_eq a k v : ET.attrib_get (ET.attrib_set a k v) k = Some v.
Proof.
  induction a as [|[k' v'] a IH]; cbn.
  - by rewrite String.eqb_refl.
  - destruct (String.eqb k' k) eqn:E; cbn; rewrite E; [done|exact IH].
Qed.

Lemma attrib_get_set_ne a k v k' :
  k' <> k -> ET.attrib_get (ET.attrib_set a k v) k' = ET.attrib_get a k'.
Proof.
  intros Hne. induction a as [|[k0 v0] a IH]; cbn.
  - by apply String.eqb_neq in Hne; rewrite String.eqb_sym, Hne.
  - destruct (String.eqb k0 k) eqn:E; cbn.
    + apply String.eqb_eq in E as ->.
      apply not_eq_sym, String.eqb_neq in Hne. by rewrite Hne.
    + destruct (String.eqb k0 k'); [done|exact IH].
Qed.

Lemma attrib_set_keys a k v :
  is_Some (ET.attrib_get a k) ->
  List.map fst (ET.attrib_set a k v) = List.map fst a.
Proof.
  induction a as [|[k0 v0] a IH]; cbn; [by intros [? ?]|].
  destruct (String.eqb k0 k); cbn; [done|]. intros H. by rewrite IH.
Qed.

Lemma has_forbidden_empty : has_forbidden "" = false.
Proof. reflexivity. Qed.

Section NodeEffects.
Variable realpath : Pathlib.PurePosixPath -> list string.
Variable d : Pathlib.PurePosixPath.
Let f := rewritten_node realpath d.
Let after := map_below is_reference f.

Lemma strip_map_below sel h n : strip (map_below sel h n) = strip n.
Proof. by destruct n. Qed.

Lemma get_map_below sel h n k : ET.get (map_below sel h n) k = ET.get n k.
Proof. by destruct n. Qed.

Lemma children_map_below sel h n :
  length (ET.children_of (map_below sel h n)) = length (ET.children_of n).
Proof. destruct n; cbn; [apply length_map|done|done]. Qed.

Lemma strip_rewritten_node n : strip (f n) = f (strip n).
Proof. subst f. rewrite !rewritten_node_on_attrib. by destruct n. Qed.

Lemma children_rewritten_node n : ET.children_of (f n) = ET.children_of n.
Proof. subst f. rewrite rewritten_node_on_attrib. by destruct n. Qed.

(** The loop body on a node, read through its location. *)
Lemma rewritten_node_cases n :
  (has_forbidden (default "" (ET.get n "schemaLocation")) = false /\ f n = n) \/
  (exists loc, ET.get n "schemaLocation" = Some loc /\ has_forbidden loc = true /\
               f n = ET.set n "schemaLocation" (local_uri realpath d loc)).
Proof.
  subst f. unfold rewritten_node.
  destruct (ET.get n "schemaLocation") as [loc|] eqn:Hget; [|by left].
  destruct (String.eqb loc "") eqn:Hloc.
  - left. apply String.eqb_eq in Hloc as ->. done.
  - destruct (has_forbidden loc) eqn:Hf; [right; eauto|by left].
Qed.

Lemma get_set_location n loc v :
  ET.get n "schemaLocation" = Some loc ->
  ET.get (ET.set n "schemaLocation" v) "schemaLocation" = Some v.
Proof. destruct n; cbn; [intros _; apply attrib_get_set_eq|done|done]. Qed.

Lemma node_at_completed_pass root p :
  ET.node_at (completed_pass realpath d root) p
  = (fun m => (if below_top p && is_reference m then f else id) (after m))
      <$> ET.node_at root p.
Proof.
  rewrite completed_pass_map_below.
  apply (node_at_map_below _ _ (rewritten_node_on_attrib realpath d)).
Qed.

Lemma matching_node root p :
  In p (matching_references root) <->
  below_top p = true /\
  exists m loc, ET.node_at root p = Some m /\ is_reference m = true /\
                ET.get m "schemaLocation" = Some loc /\ has_forbidden loc = true.
Proof.
  rewrite In_matching_references, In_reference_nodes. unfold location_at. split.
  - intros [(Hp & m & Hm & Hr) Hf]. split; [done|]. rewrite Hm in Hf.
    destruct (ET.get m "schemaLocation") as [loc|] eqn:Hg; [|done].
    exists m, loc. done.
  - intros (Hp & m & loc & Hm & Hr & Hg & Hf). rewrite Hm, Hg. eauto.
Qed.

(** A matching reference node gets the local URI and nothing else of
    its own changes. *)
Lemma completed_pass_matching root p m loc :
  In p (matching_references root) ->
  ET.node_at root p = Some m ->
  ET.get m "schemaLocation" = Some loc ->
  exists m', ET.node_at (completed_pass realpath d root) p = Some m' /\
             strip m' = ET.set (strip m) "schemaLocation" (local_uri realpath d loc) /\
             ET.get m' "schemaLocation" = Some (local_uri realpath d loc) /\
             length (ET.children_of m') = length (ET.children_of m).
Proof.
  intros (Hp & m0 & loc0 & Hm0 & Hr & Hg & Hf)%matching_node Hm Hget.
  rewrite Hm in Hm0. injection Hm0 as <-. rewrite Hget in Hg. injection Hg as <-.
  rewrite node_at_completed_pass, Hm. cbn [fmap option_fmap option_map]. rewrite Hp, Hr. cbn [andb].
  eexists. split; [done|].
  destruct (rewritten_node_cases (after m)) as [[Hn _]|(loc' & Hg' & _ & Hfm)].
  - subst after. rewrite get_map_below, Hget in Hn. cbn in Hn. congruence.
  - subst after. rewrite get_map_below, Hget in Hg'. injection Hg' as <-.
    rewrite strip_rewritten_node, strip_map_below.
    rewrite children_rewritten_node, children_map_below.
    split; [|split; [|done]].
    + destruct (rewritten_node_cases (strip m)) as [[Hn _]|(loc' & Hg' & _ & ->)].
      * replace (ET.get (strip m) "schemaLocation") with (Some loc) in Hn
          by (by destruct m). cbn in Hn. congruence.
      * replace (ET.get (strip m) "schemaLocation") with (Some loc) in Hg'
          by (by destruct m). by injection Hg' as <-.
    + rewrite Hfm. apply (get_set_location _ loc). by rewrite get_map_below.
Qed.

(** Any other node keeps everything of its own. *)
Lemma completed_pass_other root p m :
  ~ In p (matching_references root) ->
  ET.node_at root p = Some m ->
  exists m', ET.node_at (completed_pass realpath d root) p = Some m' /\
             strip m' = strip m /\
             length (ET.children_of m') = length (ET.children_of m).
Proof.
  intros Hnot Hm. rewrite node_at_completed_pass, Hm. cbn [fmap option_fmap option_map].
  eexists. split; [done|].
  destruct (below_top p && is_reference m) eqn:Hsel.
  - apply andb_true_iff in Hsel as [Hp Hr].
    destruct (rewritten_node_cases (after m)) as [[_ ->]|(loc & Hg & Hf & _)].
    + subst after. by rewrite strip_map_below, children_map_below.
    + exfalso. apply Hnot, matching_node. split; [done|].
      subst after. rewrite get_map_below in Hg. eauto 10.
  - subst after. cbn [id]. by rewrite strip_map_below, children_map_below.
Qed.

Lemma completed_pass_none root p :
  ET.node_at root p = None -> ET.node_at (completed_pass realpath d root) p = None.
Proof. intros H. by rewrite node_at_completed_pass, H. Qed.

Lemma reference_nodes_completed_pass root p :
  In p (reference_nodes (completed_pass realpath d root)) <-> In p (reference_nodes root).
Proof.
  rewrite !In_reference_nodes, node_at_completed_pass. split.
  - intros (Hp & m' & Hm' & Hr). split; [done|].
    destruct (ET.node_at root p) as [m|]; [|done]. exists m. split; [done|].
    cbn [fmap option_fmap option_map] in Hm'. injection Hm' as <-.
    destruct (below_top p && is_reference m); subst f after; cbn [id] in Hr.
    + by rewrite rewritten_node_on_attrib, is_reference_on_attrib, is_reference_map_below in Hr.
    + by rewrite is_reference_map_below in Hr.
  - intros (Hp & m & Hm & Hr). split; [done|]. rewrite Hm.
    cbn [fmap option_fmap option_map].
    eexists. split; [done|]. rewrite Hp, Hr. cbn [andb]. subst f after.
    by rewrite rewritten_node_on_attrib, is_reference_on_attrib, is_reference_map_below.
Qed.

Lemma location_at_matching root p :
  In p (matching_references root) ->
  location_at (completed_pass realpath d root) p
  = local_uri realpath d (location_at root p).
Proof.
  intros Hin. pose proof Hin as (Hp & m & loc & Hm & Hr & Hg & Hf)%matching_node.
  destruct (completed_pass_matching root p m loc Hin Hm Hg) as (m' & Hm' & _ & Hg' & _).
  unfold location_at. by rewrite Hm', Hg', Hm, Hg.
Qed.

Lemma location_at_other root p :
  ~ In p (matching_references root) ->
  location_at (completed_pass realpath d root) p = location_at root p.
Proof.
  intros Hnot. unfold location_at at 2.
  destruct (ET.node_at root p) as [m|] eqn:Hm.
  - destruct (completed_pass_other root p m Hnot Hm) as (m' & Hm' & Hs & _).
    unfold location_at. rewrite Hm'.
    replace (ET.get m' "schemaLocation") with (ET.get (strip m') "schemaLocation")
      by (by destruct m').
    rewrite Hs. by destruct m.
  - unfold location_at. by rewrite completed_pass_none.
Qed.

(** The second search meets the marker exactly when the URI written
    for some matching node holds it. *)
Lemma marker_remains_completed_pass root :
  marker_remains (completed_pass realpath d root) = true <->
  exists p, In p (matching_references root) /\
            has_forbidden (local_uri realpath d (location_at root p)) = true.
Proof.
  rewrite marker_remains_spec. split.
  - intros (p & Hp & Hf). exists p.
    apply (proj1 (reference_nodes_completed_pass root p)) in Hp.
    destruct (has_forbidden (location_at root p)) eqn:Hloc.
    + assert (Hin : In p (matching_references root)).
      { apply In_matching_references. split; assumption. }
      split; [done|]. by rewrite <- location_at_matching.
    + rewrite location_at_other in Hf; [congruence|].
      intros [_ ?]%In_matching_references. congruence.
  - intros (p & Hin & Hf). exists p. split.
    + apply reference_nodes_completed_pass. by apply In_matching_references in Hin as [? _].
    + by rewrite location_at_matching.
Qed.
End NodeEffects.

Lemma map_below_id sel (h : ET.node -> ET.node) n :
  (forall p m, below_top p = true -> ET.node_at n p = Some m -> sel m = true -> h m = m) ->
  map_below sel h n = n.
Proof.
  induction n as [t a x cs tl IH| |] using node_forall_ind; [|done|done].
  intros Hfix. cbn [map_below]. f_equal.
  rewrite <- (map_id cs) at 2. apply map_ext_in_iff. intros c Hc.
  apply list_elem_of_In, list_elem_of_lookup in Hc as [i Hi].
  rewrite Forall_lookup in IH.
  assert (Hc' : map_below sel h c = c).
  { apply (IH i c Hi). intros p m Hp Hm Hs.
    apply (Hfix (i :: p) m); [done| |done]. cbn. by rewrite Hi. }
  cbn beta zeta. rewrite Hc'.
  destruct (sel c) eqn:Hs; [|done].
  apply (Hfix [i] c); [done| |done]. cbn. by rewrite Hi.
Qed.

Lemma completed_pass_unchanged realpath d root :
  matching_references root = [] -> completed_pass realpath d root = root.
Proof.
  intros Hnone. rewrite completed_pass_map_below. apply map_below_id.
  intros p m Hp Hm Hr.
  destruct (rewritten_node_cases realpath d m) as [[_ ->]|(loc & Hg & Hf & _)]; [done|].
  assert (Hin : In p (matching_references root)) by (apply matching_node; eauto 10).
  rewrite Hnone in Hin. destruct Hin.
Qed.

(** ** The file system without symbolic links *)

Lemma normpath_snoc cs n : forall acc,
  n <> ".." -> Pathlib.normpath acc (cs ++ [n]) = Pathlib.normpath acc cs ++ [n].
Proof.
  induction cs as [|c cs IH]; intros acc Hn; cbn.
  - apply String.eqb_neq in Hn. by rewrite Hn.
  - destruct (String.eqb c ".."); by apply IH.
Qed.

Lemma Path_component n :
  Str.mem "/" n = false -> Pathlib.is_component n = true ->
  Pathlib.Path n = Pathlib.mkPath "" [n].
Proof.
  intros Hslash Hcomp. unfold Pathlib.Path, Pathlib.splitroot.
  assert (Hstart : Pathlib.starts_with_slash n = false).
  { destruct n as [|c n]; [done|]. cbn [Str.mem] in Hslash.
    apply orb_false_iff in Hslash as [Hc _].
    cbn [Pathlib.starts_with_slash]. unfold Str.is_slash. by rewrite Ascii.eqb_sym. }
  rewrite Hstart. cbn [negb]. unfold Str.split_on.
  rewrite split_aux_no_sep.
  - cbn. by rewrite Hcomp.
  - intros c Hc. unfold Str.is_slash. apply Ascii.eqb_neq. intros ->. congruence.
Qed.

(** Without symbolic links an entry resolves in place as soon as its
    name is a component other than "..". *)
Lemma realpath_lexical_in_place cwd schema_dir loc :
  Pathlib.is_component (Pathlib.name (Pathlib.Path loc)) = true ->
  Pathlib.name (Pathlib.Path loc) <> ".." ->
  resolves_in_place (Pathlib.realpath_lexical cwd) schema_dir loc.
Proof.
  intros Hcomp Hup. unfold resolves_in_place, Pathlib.realpath_lexical, Pathlib.joinpath.
  rewrite (Path_component _ (name_no_slash loc) Hcomp). cbn.
  by rewrite app_assoc, normpath_snoc.
Qed.

(** ** The first pass, loop by loop *)

Section SearchStable.
Variable g : list (string * string) -> list (string * string).
Variable f : ET.node -> ET.node.
Hypothesis f_on_attrib : forall n, f n = on_attrib g n.
Variable sel : ET.node -> bool.
Variable t : string.

Lemma iterdescendants_on_attrib n :
  ET.iterdescendants t (f n) = ET.iterdescendants t n.
Proof. rewrite f_on_attrib. by destruct n. Qed.

Lemma walk_map_below cs : forall i,
  Forall (fun c => ET.iterdescendants t (map_below sel f c) = ET.iterdescendants t c) cs ->
  ET.walk (ET.iterdescendants t) t i
    (List.map (fun c => let c' := map_below sel f c in if sel c then f c' else c') cs)
  = ET.walk (ET.iterdescendants t) t i cs.
Proof.
  induction cs as [|c cs IH]; intros i Hcs; [done|].
  inversion Hcs as [|? ? Hc Hcs']; subst. cbn [List.map ET.walk].
  rewrite (IH _ Hcs'). cbn zeta.
  destruct (sel c).
  - by rewrite (has_tag_on_attrib g f f_on_attrib), has_tag_map_below,
      iterdescendants_on_attrib, Hc.
  - by rewrite has_tag_map_below, Hc.
Qed.

Lemma iterdescendants_map_below n :
  ET.iterdescendants t (map_below sel f n) = ET.iterdescendants t n.
Proof.
  induction n as [tg a x cs tl IH| |] using node_forall_ind; [|done|done].
  cbn [map_below ET.iterdescendants]. by apply walk_map_below.
Qed.
End SearchStable.

(** A change at an address is decided by what the function does to the
    node that is there. *)
Lemma update_at_ext_at p (f h : ET.node -> ET.node) : forall r node,
  ET.node_at r p = Some node -> f node = h node ->
  ET.update_at p f r = ET.update_at p h r.
Proof.
  induction p as [|i q IH]; intros r node Hr Hfh.
  - cbn in *. by injection Hr as ->.
  - cbn [ET.node_at] in Hr. destruct r as [t a x cs tl| |]; [|done..].
    cbn [ET.children_of] in Hr. destruct (cs !! i) as [c|] eqn:Hc; [|done].
    cbn [ET.update_at]. f_equal. apply list_alter_ext; [|done].
    intros c' Hc'. rewrite Hc in Hc'. injection Hc' as <-. by apply (IH c node).
Qed.

Lemma update_at_none p (f : ET.node -> ET.node) : forall r,
  ET.node_at r p = None -> ET.update_at p f r = r.
Proof.
  induction p as [|i q IH]; intros r Hr; [done|].
  destruct r as [t a x cs tl| |]; [|done..].
  cbn [ET.node_at ET.children_of] in Hr. cbn [ET.update_at]. f_equal.
  apply list_eq. intros j. destruct (decide (i = j)) as [<-|Hne].
  - rewrite list_lookup_alter_eq. destruct (cs !! i) as [c|] eqn:Hc; [|done].
    cbn. by rewrite (IH c Hr).
  - by rewrite list_lookup_alter_ne.
Qed.

Lemma update_at_id p (f : ET.node -> ET.node) r node :
  ET.node_at r p = Some node -> f node = node -> ET.update_at p f r = r.
Proof.
  intros Hr Hf. rewrite (update_at_ext_at p f id r node Hr Hf).
  clear. revert r. induction p as [|i q IH]; intros r; [done|].
  destruct r as [t a x cs tl| |]; [|done..]. cbn [ET.update_at]. f_equal.
  by apply list_alter_id.
Qed.

Section Bridge.
Variable realpath : Pathlib.PurePosixPath -> list string.
Variable stat_eloop : Pathlib.PurePosixPath -> option string.
Variable d : Pathlib.PurePosixPath.
Let g := rewritten_node realpath d.
Let body := rewrite_node realpath stat_eloop d.
Let loops := loop_at realpath stat_eloop d.
Let first := first_loop realpath stat_eloop d.

(** The loop body at an address: the exception of [resolve], or the
    node rewritten in place. *)
Lemma rewrite_node_run r p :
  body r p = match loops r p with
             | Some filename => Exc (symlink_loop filename)
             | None => Val (ET.update_at p g r)
             end.
Proof.
  subst body loops g. unfold rewrite_node, loop_at, location_at.
  destruct (ET.node_at r p) as [node|] eqn:Hnode; cbn [default from_option id].
  2: { by rewrite (update_at_none p _ r Hnode). }
  destruct (ET.get node "schemaLocation") as [loc|] eqn:Hget; cbn [default from_option id].
  2: { rewrite (update_at_id p _ r node Hnode); [done|].
       unfold rewritten_node. by rewrite Hget. }
  destruct (String.eqb loc "") eqn:Hloc.
  { rewrite (update_at_id p _ r node Hnode); [done|].
    unfold rewritten_node. by rewrite Hget, Hloc. }
  unfold Pathlib.resolve, loop_of.
  destruct (stat_eloop _) as [filename|]; [done|].
  destruct (has_forbidden loc) eqn:Hf.
  - f_equal. apply (update_at_ext_at p _ _ r node Hnode).
    unfold rewritten_node. by rewrite Hget, Hloc, Hf.
  - rewrite (update_at_id p _ r node Hnode); [done|].
    unfold rewritten_node. by rewrite Hget, Hloc, Hf.
Qed.

Lemma first_loop_ext r r' ps :
  (forall p, In p ps -> loops r' p = loops r p) -> first r' ps = first r ps.
Proof.
  subst first loops. induction ps as [|p ps IH]; intros Hps; [done|].
  cbn [first_loop]. rewrite (Hps p) by (by left).
  rewrite IH; [done|]. intros q Hq. apply Hps. by right.
Qed.

Lemma first_loop_app r ps qs :
  first r (ps ++ qs) = match first r ps with
                       | Some filename => Some filename
                       | None => first r qs
                       end.
Proof.
  subst first. induction ps as [|p ps IH]; [done|]. cbn [app first_loop].
  by destruct (loop_at _ _ _ r p).
Qed.

Lemma first_loop_None r ps :
  first r ps = None <-> Forall (fun p => loops r p = None) ps.
Proof.
  subst first loops. induction ps as [|p ps IH]; cbn [first_loop].
  - split; [constructor|done].
  - destruct (loop_at _ _ _ r p) eqn:Hp.
    + split; [done|]. intros H. inversion H; subst. congruence.
    + rewrite IH. split; [by constructor|]. intros H. by inversion H.
Qed.

Lemma first_loop_Some r ps filename :
  first r ps = Some filename -> exists p, In p ps /\ loops r p = Some filename.
Proof.
  subst first loops. induction ps as [|p ps IH]; cbn [first_loop]; [done|].
  destruct (loop_at _ _ _ r p) eqn:Hp.
  - intros [= ->]. exists p. split; [by left|done].
  - intros (q & Hq & H)%IH. exists q. split; [by right|done].
Qed.

(** A change of attributes at one address leaves the location at every
    other address as it was. *)
Lemma location_at_update_other q : forall p r,
  p <> q -> location_at (ET.update_at q g r) p = location_at r p.
Proof.
  pose proof (rewritten_node_on_attrib realpath d) as Hg. fold g in Hg.
  unfold location_at.
  induction q as [|j q IH]; intros p r Hne.
  - destruct p as [|i p]; [done|]. cbn [ET.update_at].
    by rewrite (node_at_on_attrib _ _ Hg).
  - destruct r as [t a x cs tl| |]; [|done..]. cbn [ET.update_at].
    destruct p as [|i p]; [done|]. cbn [ET.node_at ET.children_of].
    destruct (decide (j = i)) as [->|Hji].
    + rewrite list_lookup_alter_eq. destruct (cs !! i) as [c|]; [|done].
      cbn [fmap option_fmap option_map]. apply IH. congruence.
    + by rewrite list_lookup_alter_ne.
Qed.

Lemma loop_at_update_other q p r :
  p <> q -> loops (ET.update_at q g r) p = loops r p.
Proof. intros Hne. subst loops. unfold loop_at. by rewrite location_at_update_other. Qed.

(** One inner loop: it raises at the first address whose path does not
    resolve, and otherwise leaves every node rewritten. *)
Lemma inner_loop_run ps : forall r,
  NoDup ps ->
  for_each body r ps
  = match first r ps with
    | Some filename => Exc (symlink_loop filename)
    | None => Val (foldl (fun r' p => ET.update_at p g r') r ps)
    end.
Proof.
  induction ps as [|p ps IH]; intros r Hnd; [done|].
  apply NoDup_cons in Hnd as [Hp Hnd].
  cbn [for_each foldl]. rewrite rewrite_node_run.
  unfold first. cbn [first_loop]. fold loops first.
  destruct (loops r p) as [filename|]; [done|].
  rewrite (IH _ Hnd).
  rewrite (first_loop_ext r (ET.update_at p g r)); [done|].
  intros q Hq. apply loop_at_update_other. intros ->.
  by apply Hp, list_elem_of_In.
Qed.

(** The nodes of one tag rewritten: the locations of the nodes of
    another tag are untouched, and so is what a search finds. *)
Lemma loops_after_tag t1 t2 r p :
  t1 <> t2 -> In p (ET.iterdescendants t2 r) ->
  loops (map_below (ET.has_tag t1) g r) p = loops r p.
Proof.
  intros Hne (Hp & m & Hm & Ht)%In_iterdescendants.
  pose proof (rewritten_node_on_attrib realpath d) as Hg. fold g in Hg.
  subst loops. unfold loop_at, location_at.
  rewrite (node_at_map_below _ _ Hg), Hm. cbn [fmap option_fmap option_map].
  rewrite (has_tag_exclusive t2 t1 m) by done.
  rewrite andb_false_r. cbn [id]. by rewrite get_map_below.
Qed.

Lemma first_loop_after_tag t1 t2 r :
  t1 <> t2 ->
  first (map_below (ET.has_tag t1) g r)
        (ET.iterdescendants t2 (map_below (ET.has_tag t1) g r))
  = first r (ET.iterdescendants t2 r).
Proof.
  intros Hne.
  pose proof (rewritten_node_on_attrib realpath d) as Hg. fold g in Hg.
  rewrite (iterdescendants_map_below _ _ Hg).
  apply first_loop_ext. intros p Hp. by apply (loops_after_tag t1 t2).
Qed.

(** The first pass: [resolve] raises at the first reference node, in
    the order of the loops, whose path runs into a loop of symbolic
    links; when there is none, every reference node is rewritten. *)
Lemma rewrite_pass_run root :
  rewrite_pass realpath stat_eloop d root
  = match first root (reference_nodes root) with
    | Some filename => Exc (symlink_loop filename)
    | None => Val (completed_pass realpath d root)
    end.
Proof.
  pose proof (rewritten_node_on_attrib realpath d) as Hg. fold g in Hg.
  unfold rewrite_pass, completed_pass, reference_nodes, reference_tags.
  cbn [for_each foldl flat_map]. fold body g.
  rewrite app_nil_r, !first_loop_app.
  rewrite inner_loop_run by apply NoDup_iterdescendants.
  destruct (first root (ET.iterdescendants (xs "import") root)); [done|].
  rewrite (foldl_iterdescendants _ _ Hg).
  rewrite inner_loop_run by apply NoDup_iterdescendants.
  rewrite (first_loop_after_tag (xs "import") (xs "include")) by done.
  destruct (first root (ET.iterdescendants (xs "include") root)); [done|].
  rewrite (foldl_iterdescendants _ _ Hg).
  rewrite inner_loop_run by apply NoDup_iterdescendants.
  rewrite (first_loop_after_tag (xs "include") (xs "redefine")) by done.
  rewrite (first_loop_after_tag (xs "import") (xs "redefine")) by done.
  destruct (first root (ET.iterdescendants (xs "redefine") root)); [done|].
  by rewrite (foldl_iterdescendants _ _ Hg).
Qed.

Lemma loop_at_None root p :
  loops root p = None <->
  location_at root p = "" \/ resolves realpath stat_eloop d (location_at root p).
Proof.
  subst loops. unfold loop_at, resolves.
  destruct (String.eqb_spec (location_at root p) "") as [->|Hne]; [by split; auto|].
  split; [by right|]. by intros [?|?].
Qed.

Lemma no_loop_located root :
  first root (reference_nodes root) = None <->
  Forall (fun p => resolves realpath stat_eloop d (location_at root p))
         (located_references root).
Proof.
  rewrite first_loop_None, !Forall_forall. unfold located_references. split.
  - intros H p [Hp Hloc]%list_elem_of_In%filter_In.
    apply list_elem_of_In, H, loop_at_None in Hp as [Hp|Hp]; [|done].
    rewrite Hp in Hloc. done.
  - intros H p Hp. apply loop_at_None.
    destruct (String.eqb_spec (location_at root p) "") as [?|Hne]; [by left|right].
    apply H, list_elem_of_In, filter_In. split; [by apply list_elem_of_In|].
    by apply negb_true_iff, String.eqb_neq.
Qed.

Lemma rewrite_pass_returns root :
  Forall (fun p => resolves realpath stat_eloop d (location_at root p))
         (located_references root) ->
  rewrite_pass realpath stat_eloop d root = Val (completed_pass realpath d root).
Proof. intros H%no_loop_located. by rewrite rewrite_pass_run, H. Qed.

Lemma rewrite_pass_inv root root' :
  rewrite_pass realpath stat_eloop d root = Val root' ->
  root' = completed_pass realpath d root /\
  Forall (fun p => resolves realpath stat_eloop d (location_at root p))
         (located_references root).
Proof.
  rewrite rewrite_pass_run, <- no_loop_located.
  destruct (first root (reference_nodes root)); [done|]. by intros [= <-].
Qed.

Lemma rewrite_pass_raises root e :
  rewrite_pass realpath stat_eloop d root = Exc e ->
  exists p filename,
    In p (located_references root) /\
    loop_of realpath stat_eloop d (location_at root p) = Some filename /\
    e = symlink_loop filename.
Proof.
  rewrite rewrite_pass_run.
  destruct (first root (reference_nodes root)) as [filename|] eqn:Hfirst; [|done].
  intros [= <-]. apply first_loop_Some in Hfirst as (p & Hp & Hloop).
  exists p, filename. subst loops. unfold loop_at in Hloop.
  destruct (String.eqb (location_at root p) "") eqn:Hloc; [done|].
  split; [|done]. apply filter_In. by rewrite Hloc.
Qed.
End Bridge.

Lemma symlink_loop_is_not_rewrite_incomplete filename :
  symlink_loop filename <> rewrite_incomplete.
Proof. unfold symlink_loop, rewrite_incomplete. cbn. discriminate. Qed.

(** ** The rewriter *)

Lemma rewrite_run realpath stat_eloop xsd_tree schema_dir :
  rewrite_schema_imports_in_memory realpath stat_eloop xsd_tree schema_dir
  = match rewrite_pass realpath stat_eloop schema_dir (ET.getroot xsd_tree) with
    | Exc e => Exc e
    | Val root' =>
        if marker_remains root' then Exc rewrite_incomplete
        else Val (ET.mkTree (ET.docinfo xsd_tree) root')
    end.
Proof. reflexivity. Qed.

Lemma rewrite_returns_inv realpath stat_eloop xsd_tree schema_dir rewritten :
  rewrite_schema_imports_in_memory realpath stat_eloop xsd_tree schema_dir = Val rewritten ->
  rewrite_pass realpath stat_eloop schema_dir (ET.getroot xsd_tree)
  = Val (ET.getroot rewritten) /\
  ET.getroot rewritten = completed_pass realpath schema_dir (ET.getroot xsd_tree) /\
  ET.docinfo rewritten = ET.docinfo xsd_tree /\
  marker_remains (ET.getroot rewritten) = false.
Proof.
  rewrite rewrite_run.
  destruct (rewrite_pass _ _ _ _) as [root'|e] eqn:Hpass; [|done].
  destruct (marker_remains root') eqn:Hm; [done|]. intros [= <-]. cbn.
  by apply rewrite_pass_inv in Hpass as [-> _].
Qed.

Lemma rewrite_returns realpath stat_eloop xsd_tree schema_dir :
  Forall (fun p => resolves realpath stat_eloop schema_dir
                     (location_at (ET.getroot xsd_tree) p))
         (located_references (ET.getroot xsd_tree)) ->
  marker_remains (completed_pass realpath schema_dir (ET.getroot xsd_tree)) = false ->
  rewrite_schema_imports_in_memory realpath stat_eloop xsd_tree schema_dir
  = Val (ET.mkTree (ET.docinfo xsd_tree)
           (completed_pass realpath schema_dir (ET.getroot xsd_tree))).
Proof.
  intros Hres Hm. by rewrite rewrite_run, (rewrite_pass_returns _ _ _ _ Hres), Hm.
Qed.

(** Whatever the function raises is a [RuntimeError] without a cause. *)
Lemma rewrite_raises_RuntimeError realpath stat_eloop xsd_tree schema_dir e :
  rewrite_schema_imports_in_memory realpath stat_eloop xsd_tree schema_dir = Exc e ->
  exists msg, e = RuntimeError msg None.
Proof.
  rewrite rewrite_run.
  destruct (rewrite_pass _ _ _ _) as [root'|e'] eqn:Hpass.
  - destruct (marker_remains root'); [|done]. intros [= <-]. by eexists.
  - intros [= <-]. apply rewrite_pass_raises in Hpass as (p & filename & _ & _ & ->).
    by eexists.
Qed.

Lemma marker_remains_node root :
  marker_remains root = true <->
  exists p node, below_top p = true /\ ET.node_at root p = Some node /\
                 is_reference node = true /\
                 has_forbidden (default "" (ET.get node "schemaLocation")) = true.
Proof.
  rewrite marker_remains_spec. split.
  - intros (p & (Hp & m & Hm & Hr)%In_reference_nodes & Hf).
    exists p, m. unfold location_at in Hf. by rewrite Hm in Hf.
  - intros (p & m & Hp & Hm & Hr & Hf). exists p. split.
    + apply In_reference_nodes. eauto.
    + unfold location_at. by rewrite Hm.
Qed.

(** The reference nodes whose location the pass changed are the matching
    ones, when no marker is left. *)
Lemma changed_references realpath schema_dir root :
  marker_remains (completed_pass realpath schema_dir root) = false ->
  List.filter
    (fun p => negb (String.eqb (location_at (completed_pass realpath schema_dir root) p)
                               (location_at root p)))
    (reference_nodes root)
  = matching_references root.
Proof.
  intros Hclean. unfold matching_references. apply filter_ext_in. intros p Hp.
  destruct (has_forbidden (location_at root p)) eqn:Hf.
  - apply negb_true_iff, String.eqb_neq. intros Heq.
    assert (marker_remains (completed_pass realpath schema_dir root) = true); [|congruence].
    apply marker_remains_spec. exists p. split.
    + by apply reference_nodes_completed_pass.
    + by rewrite Heq.
  - apply negb_false_iff, String.eqb_eq, location_at_other.
    intros [_ ?]%In_matching_references. congruence.
Qed.

(** With every entry in place and no marker in the URI of the
    directory, no URI that the pass writes holds the marker. *)
Lemma clean_pass realpath schema_dir root :
  Forall (fun p => resolves_in_place realpath schema_dir (location_at root p))
         (matching_references root) ->
  has_forbidden (Pathlib.as_uri (Pathlib.real realpath schema_dir) +:+ "/") = false ->
  marker_remains (completed_pass realpath schema_dir root) = false.
Proof.
  intros Hplace Hdir.
  destruct (marker_remains (completed_pass realpath schema_dir root)) eqn:Hm; [|done].
  apply marker_remains_completed_pass in Hm as (p & Hin & Hf).
  rewrite Forall_forall in Hplace.
  rewrite (local_uri_marker_free realpath schema_dir _
             (Hplace p (proj2 (list_elem_of_In _ _) Hin)) Hdir) in Hf.
  done.
Qed.

(** C1, as amended: when [resolve] meets no loop of symbolic links, every
    location to rewrite names an entry that resolves in place, and the
    URI of the resolved trusted directory followed by '/' holds no
    marker, [rewrite_schema_imports_in_memory] returns, and in the tree
    it returns no reference node (an [import], [include] or [redefine]
    element of the XSD namespace below the root) has a [schemaLocation]
    that holds the marker in either form; the N reference nodes that
    matched are N different nodes, they are the reference nodes whose
    location changed, and each carries a file URI; every other node
    keeps its location.  For a location written without a backslash,
    URI or bare path, that file URI is the one of the entry [name] of
    the resolved trusted directory and ends in the percent-encoded
    [name], [name] being the file name the specification means.  What
    is written for a location with a backslash in it is left open. *)
Theorem rewrite_completeness realpath stat_eloop xsd_tree schema_dir :
  let root := ET.getroot xsd_tree in
  Forall (fun p => resolves realpath stat_eloop schema_dir (location_at root p))
         (located_references root) ->
  Forall (fun p => resolves_in_place realpath schema_dir (location_at root p))
         (matching_references root) ->
  has_forbidden (Pathlib.as_uri (Pathlib.real realpath schema_dir) +:+ "/") = false ->
  exists rewritten,
    rewrite_schema_imports_in_memory realpath stat_eloop xsd_tree schema_dir
    = Val rewritten /\
    let root' := ET.getroot rewritten in
    matching_references root' = [] /\
    NoDup (matching_references root) /\
    List.filter (fun p => negb (String.eqb (location_at root' p) (location_at root p)))
                (reference_nodes root)
    = matching_references root /\
    (forall p, In p (matching_references root) ->
       let loc := location_at root p in
       has_forbidden loc = true /\
       String.prefix "file://" (location_at root' p) = true /\
       (Str.mem "\" loc = false ->
          let file_name := file_name_any_separator loc in
          location_at root' p
          = Pathlib.as_uri (Pathlib.mkPath "/" (realpath schema_dir ++ [file_name])) /\
          location_at root' p
          = (if realpath schema_dir is [] then "file://"
             else Pathlib.as_uri (Pathlib.real realpath schema_dir))
              +:+ "/" +:+ Urllib.quote_from_bytes file_name /\
          final_segment (location_at root' p) = Urllib.quote_from_bytes file_name)) /\
    (forall p, ~ In p (matching_references root) -> location_at root' p = location_at root p).
Proof.
  intros root Hres Hplace Hdir.
  pose proof (clean_pass realpath schema_dir root Hplace Hdir) as Hm.
  eexists. split; [by apply rewrite_returns|]. cbv zeta. cbn [ET.getroot]. fold root.
  split; [by apply marker_remains_matching|].
  split; [apply NoDup_matching_references|].
  split; [by apply changed_references|]. split.
  - intros p Hin. set (loc := location_at root p).
    pose proof (location_at_matching realpath schema_dir root p Hin) as Hloc.
    fold loc in Hloc. rewrite Hloc.
    split; [by apply In_matching_references in Hin as [_ ?]|].
    split; [done|]. intros Hback.
    rewrite Forall_forall in Hplace.
    pose proof (Hplace p (proj2 (list_elem_of_In _ _) Hin)) as Hp. fold loc in Hp.
    rewrite <- (name_any_separator loc Hback).
    split; [|split].
    + unfold local_uri, Pathlib.real. by rewrite Hp.
    + by apply local_uri_in_place.
    + by apply local_uri_final_segment.
  - intros p Hnot. by apply location_at_other.
Qed.

(** C2, as amended: once the first pass is over, the function looks
    through the tree that pass has left and raises the rewrite-incomplete
    error exactly when some reference node below the root has a
    [schemaLocation] that holds the marker in either form; otherwise it
    returns that tree.  The root element itself is not looked at.  When
    the first pass is ended by an exception of [resolve], that exception
    is what the function raises, it is not the rewrite-incomplete error,
    and the check is not reached. *)
Theorem completeness_check_over_rewritten_tree realpath stat_eloop xsd_tree schema_dir :
  let run := rewrite_schema_imports_in_memory realpath stat_eloop xsd_tree schema_dir in
  let pass := rewrite_pass realpath stat_eloop schema_dir (ET.getroot xsd_tree) in
  let remains root' :=
    exists p node, below_top p = true /\ ET.node_at root' p = Some node /\
                   is_reference node = true /\
                   has_forbidden (default "" (ET.get node "schemaLocation")) = true in
  (forall root', pass = Val root' ->
     (run = Exc rewrite_incomplete <-> remains root') /\
     (run = Val (ET.mkTree (ET.docinfo xsd_tree) root') <-> ~ remains root')) /\
  (run = Exc rewrite_incomplete <-> exists root', pass = Val root' /\ remains root') /\
  (forall e, pass = Exc e -> run = Exc e /\ e <> rewrite_incomplete) /\
  (forall e, run = Exc e -> e = rewrite_incomplete \/ pass = Exc e) /\
  (forall t, run = Val t ->
     exists root', pass = Val root' /\ t = ET.mkTree (ET.docinfo xsd_tree) root').
Proof.
  intros run pass remains. subst run. rewrite rewrite_run. fold pass.
  assert (Hspec : forall root', marker_remains root' = true <-> remains root')
    by (intros root'; apply marker_remains_node).
  assert (Hexc : forall e, pass = Exc e -> e <> rewrite_incomplete).
  { intros e (p & filename & _ & _ & ->)%rewrite_pass_raises.
    apply symlink_loop_is_not_rewrite_incomplete. }
  destruct pass as [root'|e] eqn:Hpass; [destruct (marker_remains root') eqn:Hm|].
  1: assert (Hr : remains root') by (by apply Hspec).
  2: assert (Hn : ~ remains root') by (intros H%Hspec; congruence).
  all: repeat split; intros;
    repeat match goal with
      | H : Val _ = Val _ |- _ => injection H as <-
      | H : Exc _ = Exc _ |- _ => injection H as <-
      | H : exists _, _ |- _ => destruct H as [? H]
      | H : _ /\ _ |- _ => destruct H
      end;
    try done; try congruence; try tauto; eauto.
  exfalso. apply (Hexc e eq_refl). congruence.
Qed.

(** C3: the first pass adds and removes no node; a node keeps its tag,
    text, tail and number of children; its attributes change only when
    it is a reference node whose location holds the marker, and then
    only the value of [schemaLocation] changes (the attributes keep
    their order and the others their values).  A reference node whose
    location is free of the marker is not touched, and with nothing to
    rewrite below it is the same subtree as before.  The loop body
    passes over a node whose location is absent or empty without an
    error and without a change, it never changes a node whose location
    is free of the marker, and all it ever does to the tree is set the
    [schemaLocation] of the node it is at, when that location holds the
    marker.  When no reference node matches,
    whatever the function returns is the tree it was given. *)
Theorem rewrite_locality realpath stat_eloop schema_dir xsd_tree :
  let root := ET.getroot xsd_tree in
  (forall root', rewrite_pass realpath stat_eloop schema_dir root = Val root' ->
     (forall p, ET.node_at root p = None -> ET.node_at root' p = None) /\
     (forall p node, ET.node_at root p = Some node ->
        exists node', ET.node_at root' p = Some node' /\
          length (ET.children_of node') = length (ET.children_of node) /\
          ((In p (matching_references root) /\
            exists loc, ET.get node "schemaLocation" = Some loc /\
              has_forbidden loc = true /\
              strip node' = ET.set (strip node) "schemaLocation"
                              (local_uri realpath schema_dir loc)) \/
           (~ In p (matching_references root) /\ strip node' = strip node))) /\
     (forall p node, ET.node_at root p = Some node ->
        ~ In p (matching_references root) -> matching_references node = [] ->
        ET.node_at root' p = Some node)) /\
  (forall a v, is_Some (ET.attrib_get a "schemaLocation") ->
     List.map fst (ET.attrib_set a "schemaLocation" v) = List.map fst a /\
     forall k, k <> "schemaLocation" ->
       ET.attrib_get (ET.attrib_set a "schemaLocation" v) k = ET.attrib_get a k) /\
  (forall p node, ET.node_at root p = Some node ->
     has_forbidden (default "" (ET.get node "schemaLocation")) = false ->
     ~ In p (matching_references root)) /\
  (forall r p, location_at r p = "" ->
     rewrite_node realpath stat_eloop schema_dir r p = Val r) /\
  (forall r p r', has_forbidden (location_at r p) = false ->
     rewrite_node realpath stat_eloop schema_dir r p = Val r' -> r' = r) /\
  (forall r p r', rewrite_node realpath stat_eloop schema_dir r p = Val r' ->
     r' = r \/
     (has_forbidden (location_at r p) = true /\
      exists uri, r' = ET.update_at p (fun n => ET.set n "schemaLocation" uri) r)) /\
  (matching_references root = [] ->
     (forall t, rewrite_schema_imports_in_memory realpath stat_eloop xsd_tree schema_dir
                = Val t -> t = xsd_tree) /\
     (Forall (fun p => resolves realpath stat_eloop schema_dir (location_at root p))
             (located_references root) ->
      rewrite_schema_imports_in_memory realpath stat_eloop xsd_tree schema_dir
      = Val xsd_tree)).
Proof.
  intros root.
  assert (Hbody : forall r p,
            has_forbidden (location_at r p) = false ->
            ET.update_at p (rewritten_node realpath schema_dir) r = r).
  { intros r p Hf. unfold location_at in Hf.
    destruct (ET.node_at r p) as [node|] eqn:Hnode; [|by apply update_at_none].
    apply (update_at_id _ _ _ node Hnode).
    destruct (rewritten_node_cases realpath schema_dir node) as [[_ ->]|(loc & Hg & Hl & _)];
      [done|].
    rewrite Hg in Hf. cbn in Hf. congruence. }
  split; [|split; [|split; [|split; [|split; [|split]]]]].
  - intros root' [-> _]%rewrite_pass_inv. split; [|split].
    + apply completed_pass_none.
    + intros p node Hnode.
      destruct (decide (p ∈ matching_references root)) as [Hin|Hnot];
        rewrite list_elem_of_In in *.
      * pose proof Hin as (_ & m & loc & Hm & _ & Hg & Hf)%matching_node.
        rewrite Hnode in Hm. injection Hm as <-.
        destruct (completed_pass_matching realpath schema_dir root p node loc Hin Hnode Hg)
          as (node' & Hn' & Hs & _ & Hlen).
        exists node'. repeat split; [done|done|]. left. eauto 10.
      * destruct (completed_pass_other realpath schema_dir root p node Hnot Hnode)
          as (node' & Hn' & Hs & Hlen).
        exists node'. repeat split; [done|done|]. by right.
    + intros p node Hnode Hnot Hbelow.
      rewrite node_at_completed_pass, Hnode.
      cbn [fmap option_fmap option_map]. f_equal.
      rewrite <- completed_pass_map_below, (completed_pass_unchanged _ _ _ Hbelow).
      destruct (below_top p && is_reference node) eqn:Hsel; [|done].
      apply andb_true_iff in Hsel as [Hp Hr].
      destruct (rewritten_node_cases realpath schema_dir node)
        as [[_ ->]|(loc & Hg & Hf & _)]; [done|].
      exfalso. apply Hnot, matching_node. eauto 10.
  - intros a v Ha. split; [by apply attrib_set_keys|].
    intros k Hk. by apply attrib_get_set_ne.
  - intros p node Hnode Hf (_ & m & loc & Hm & _ & Hg & Hf')%matching_node.
    fold root in Hnode. rewrite Hnode in Hm. injection Hm as <-.
    rewrite Hg in Hf. cbn in Hf. congruence.
  - intros r p Hloc. rewrite rewrite_node_run. unfold loop_at. rewrite Hloc. cbn.
    rewrite Hbody; [done|]. by rewrite Hloc.
  - intros r p r' Hf. rewrite rewrite_node_run.
    destruct (loop_at _ _ _ r p); [done|]. intros [= <-]. by apply Hbody.
  - intros r p r'. unfold rewrite_node, location_at.
    destruct (ET.node_at r p) as [node|]; [|intros [= <-]; by left].
    destruct (ET.get node "schemaLocation") as [loc|]; [|intros [= <-]; by left].
    destruct (String.eqb loc ""); [intros [= <-]; by left|].
    destruct (Pathlib.resolve _ _ _) as [target|]; [|done].
    cbn [default from_option id].
    destruct (has_forbidden loc); intros [= <-]; [right|by left].
    split; [done|]. by eexists.
  - intros Hnone.
    assert (Hsame : completed_pass realpath schema_dir root = root)
      by (by apply completed_pass_unchanged).
    split.
    + intros t (_ & Hroot & Hdoc & _)%rewrite_returns_inv. fold root in Hroot.
      rewrite Hsame in Hroot. destruct t, xsd_tree. cbn in *. congruence.
    + intros Hres. rewrite (rewrite_returns _ _ _ _ Hres); fold root; rewrite Hsame.
      * by destruct xsd_tree.
      * by apply marker_remains_matching.
Qed.

(** C10, as amended: when [resolve] meets no loop of symbolic links,
    every location to rewrite names an entry that resolves in place and
    the file URI of the resolved trusted directory, followed by '/',
    holds the marker in neither form, the function does not raise: the
    first pass completes, the closing check finds nothing, and the tree
    the first pass left is returned. *)
Theorem rewrite_returns_when_uris_are_clean realpath stat_eloop xsd_tree schema_dir :
  let root := ET.getroot xsd_tree in
  Forall (fun p => resolves realpath stat_eloop schema_dir (location_at root p))
         (located_references root) ->
  Forall (fun p => resolves_in_place realpath schema_dir (location_at root p))
         (matching_references root) ->
  has_forbidden (Pathlib.as_uri (Pathlib.real realpath schema_dir) +:+ "/") = false ->
  exists root',
    rewrite_pass realpath stat_eloop schema_dir root = Val root' /\
    marker_remains root' = false /\
    rewrite_schema_imports_in_memory realpath stat_eloop xsd_tree schema_dir
    = Val (ET.mkTree (ET.docinfo xsd_tree) root').
Proof.
  intros root Hres Hplace Hdir.
  pose proof (clean_pass realpath schema_dir root Hplace Hdir) as Hm.
  exists (completed_pass realpath schema_dir root).
  split; [by apply rewrite_pass_returns|]. split; [done|]. by apply rewrite_returns.
Qed.

(** ** More on the rewriter *)

(** X1: a tree that the rewriter returned goes through the rewriter
    again unchanged, whatever file system and directory the second call
    is given: no reference in it holds a marker any more, so the first
    pass finds nothing to rewrite and the closing check finds nothing
    to reject.  The second call returns that very tree or ends in the
    exception of a [resolve] that met a loop of symbolic links; it
    returns whenever no [resolve] does. *)
Theorem rewritten_tree_is_a_fixed_point
    realpath stat_eloop xsd_tree schema_dir rewritten realpath' stat_eloop' other_dir :
  rewrite_schema_imports_in_memory realpath stat_eloop xsd_tree schema_dir = Val rewritten ->
  let again := rewrite_schema_imports_in_memory realpath' stat_eloop' rewritten other_dir in
  (forall t, again = Val t -> t = rewritten) /\
  again <> Exc rewrite_incomplete /\
  (Forall (fun p => resolves realpath' stat_eloop' other_dir
                      (location_at (ET.getroot rewritten) p))
          (located_references (ET.getroot rewritten)) ->
   again = Val rewritten).
Proof.
  intros (_ & _ & _ & Hclean)%rewrite_returns_inv again.
  pose proof Hclean as Hnone%marker_remains_matching.
  pose proof (completed_pass_unchanged realpath' other_dir _ Hnone) as Hsame.
  subst again. rewrite rewrite_run, rewrite_pass_run, Hsame.
  destruct (first_loop _ _ _ _ _) as [filename|] eqn:Hfirst.
  - split; [done|]. split.
    + intros H. apply (symlink_loop_is_not_rewrite_incomplete filename). congruence.
    + intros Hres%no_loop_located. congruence.
  - rewrite Hclean. destruct rewritten. cbn [ET.docinfo ET.getroot].
    split; [by intros t [= <-]|]. split; done.
Qed.

Lemma reference_nodes_leaf root :
  ET.children_of root = [] -> reference_nodes root = [].
Proof. destruct root as [t a x cs tl| |]; cbn; [intros ->|..]; done. Qed.

(** X2: the root element is out of the rewriter's reach.  The searches
    start below the root, so the root is never among the reference nodes,
    its own data is the same after the first pass, and a document whose
    root has no children is returned as it was given, markers in the
    root's [schemaLocation] or not. *)
Theorem root_element_is_out_of_reach realpath stat_eloop schema_dir xsd_tree :
  let root := ET.getroot xsd_tree in
  ~ In [] (reference_nodes root) /\
  (forall root', rewrite_pass realpath stat_eloop schema_dir root = Val root' ->
                 strip root' = strip root) /\
  (ET.children_of root = [] ->
   rewrite_schema_imports_in_memory realpath stat_eloop xsd_tree schema_dir = Val xsd_tree).
Proof.
  intros root. split; [|split].
  - by intros [? _]%In_reference_nodes.
  - intros root' [-> _]%rewrite_pass_inv.
    rewrite completed_pass_map_below. by destruct root.
  - intros Hleaf.
    assert (Hnone : matching_references root = []).
    { unfold matching_references. by rewrite (reference_nodes_leaf _ Hleaf). }
    rewrite rewrite_run, rewrite_pass_run. fold root.
    rewrite (reference_nodes_leaf _ Hleaf). cbn [first_loop].
    rewrite (completed_pass_unchanged _ _ _ Hnone).
    apply marker_remains_matching in Hnone. rewrite Hnone. by destruct xsd_tree.
Qed.

(** X3: the three loops of the first pass, which update the tree in
    place one tag after the other, complete exactly when no [resolve]
    meets a loop of symbolic links, and then come to one traversal of
    the tree that rewrites each reference node once, from the value it
    had on entry: no loop sees a value that an earlier loop wrote. *)
Theorem first_pass_is_one_traversal realpath stat_eloop schema_dir root root' :
  rewrite_pass realpath stat_eloop schema_dir root = Val root' <->
  Forall (fun p => resolves realpath stat_eloop schema_dir (location_at root p))
         (located_references root) /\
  root' = map_below is_reference (rewritten_node realpath schema_dir) root.
Proof.
  rewrite <- completed_pass_map_below. split.
  - intros [-> Hres]%rewrite_pass_inv. done.
  - intros [Hres ->]. by apply rewrite_pass_returns.
Qed.

(** X4: the first pass changes attributes only, so every search by
    tag finds the same nodes in the same order before and after it; the
    closing check walks exactly the reference nodes that the first pass
    walked. *)
Theorem second_pass_visits_the_same_nodes realpath stat_eloop schema_dir root root' :
  rewrite_pass realpath stat_eloop schema_dir root = Val root' ->
  (forall tag, ET.iterdescendants tag root' = ET.iterdescendants tag root) /\
  reference_nodes root' = reference_nodes root.
Proof.
  intros [-> _]%rewrite_pass_inv.
  assert (H : forall tag, ET.iterdescendants tag (completed_pass realpath schema_dir root)
                          = ET.iterdescendants tag root).
  { intros tag. rewrite completed_pass_map_below.
    apply (iterdescendants_map_below _ _ (rewritten_node_on_attrib realpath schema_dir)). }
  split; [exact H|]. unfold reference_nodes, reference_tags. cbn [flat_map].
  by rewrite !H.
Qed.

(** X5: after the first pass no reference node holds the backslash
    marker: a value that matched was replaced by a [file:] URI, in which
    a backslash is percent-encoded, and a value that did not match has
    none.  So when the closing check fires, it fires on the forward-slash
    marker inside a URI that the first pass itself wrote. *)
Theorem backslash_marker_never_survives realpath stat_eloop schema_dir root root' :
  rewrite_pass realpath stat_eloop schema_dir root = Val root' ->
  (forall p, In p (reference_nodes root') ->
     Str.contains "\CommonTypes\v14\" (location_at root' p) = false) /\
  (marker_remains root' = true ->
   exists p, In p (matching_references root) /\
             Str.contains "/CommonTypes/v14/" (location_at root' p) = true).
Proof.
  intros [-> _]%rewrite_pass_inv.
  set (root' := completed_pass realpath schema_dir root).
  assert (Hback : forall p, In p (reference_nodes root') ->
            Str.contains "\CommonTypes\v14\" (location_at root' p) = false).
  { intros p Hp%reference_nodes_completed_pass.
    destruct (has_forbidden (location_at root p)) eqn:Hf.
    - assert (Hin : In p (matching_references root))
        by (apply In_matching_references; split; assumption).
      unfold root'. rewrite (location_at_matching _ _ _ _ Hin). unfold local_uri.
      destruct (Str.contains _ (Pathlib.as_uri _)) eqn:Hc; [|done].
      pose proof (contains_mem _ _ "\"%char Hc eq_refl) as Hm.
      by rewrite as_uri_backslash in Hm.
    - unfold root'. rewrite location_at_other.
      + by apply orb_false_iff in Hf as [_ ?].
      + intros [_ ?]%In_matching_references. congruence. }
  split; [exact Hback|].
  intros (p & Hin & Hf)%marker_remains_completed_pass. exists p. split; [done|].
  unfold root'. rewrite (location_at_matching _ _ _ _ Hin).
  unfold local_uri in *. by rewrite has_forbidden_as_uri in Hf.
Qed.

(** X6: when [resolve] meets no loop of symbolic links, every matching
    location names an entry that resolves in place below the trusted
    directory and there is at least one of them, the rewriter raises
    exactly when the URI of the resolved directory, followed by a
    slash, holds a marker itself. *)
Theorem rewrite_raises_exactly_below_a_marker_directory
    realpath stat_eloop xsd_tree schema_dir :
  let root := ET.getroot xsd_tree in
  Forall (fun p => resolves realpath stat_eloop schema_dir (location_at root p))
         (located_references root) ->
  Forall (fun p => resolves_in_place realpath schema_dir (location_at root p))
         (matching_references root) ->
  matching_references root <> [] ->
  (rewrite_schema_imports_in_memory realpath stat_eloop xsd_tree schema_dir
   = Exc rewrite_incomplete
   <-> has_forbidden (Pathlib.as_uri (Pathlib.real realpath schema_dir) +:+ "/") = true).
Proof.
  intros root Hres Hplace Hsome.
  rewrite rewrite_run. fold root. rewrite (rewrite_pass_returns _ _ _ _ Hres). split.
  - destruct (has_forbidden (Pathlib.as_uri (Pathlib.real realpath schema_dir) +:+ "/"))
      eqn:Hdir; [done|].
    by rewrite (clean_pass realpath schema_dir root Hplace Hdir).
  - intros Hdir. rewrite Forall_forall in Hplace.
    assert (Hex : exists p, In p (matching_references root)).
    { destruct (matching_references root) as [|p ps]; [done|]. exists p. by left. }
    destruct Hex as [p Hin].
    assert (Hm : marker_remains (completed_pass realpath schema_dir root) = true).
    { apply marker_remains_completed_pass. exists p. split; [done|].
      rewrite (local_uri_in_place realpath schema_dir _
                 (Hplace p (proj2 (list_elem_of_In _ _) Hin))).
      unfold Pathlib.real in *. destruct (realpath schema_dir) as [|c cs]; [done|].
      rewrite <- append_assoc. unfold has_forbidden in *.
      apply orb_true_iff in Hdir as [H|H]; apply orb_true_iff; [left|right];
        by apply contains_app_l. }
    by rewrite Hm.
Qed.

(** ** Runs of the pipeline *)

Lemma print_all_run lines : forall tr,
  print_all lines tr = (Val tt, tr ++ List.map Stdout lines).
Proof.
  induction lines as [|l ls IH]; intros tr; cbn.
  - by rewrite app_nil_r.
  - unfold bind, print, emit. cbn. by rewrite IH, <- app_assoc.
Qed.

Lemma contains_forbidden_spec p :
  _contains_forbidden p = has_forbidden (Pathlib.str p).
Proof. unfold _contains_forbidden, has_forbidden. cbn. by rewrite orb_false_r. Qed.

Lemma suffix_cons {A} (x : A) l s :
  (exists before, l = before ++ s) -> exists before, x :: l = before ++ s.
Proof. intros [b ->]. by exists (x :: b). Qed.

Lemma enumerate_lookup {A} (l : list A) : forall start i,
  enumerate start l !! i = (fun x => ((start + Z.of_nat i)%Z, x)) <$> l !! i.
Proof.
  induction l as [|x l IH]; intros start [|i]; cbn -[Z.of_nat]; [done|done| |].
  - by rewrite Z.add_0_r.
  - rewrite IH. destruct (l !! i); cbn -[Z.of_nat]; [|done].
    do 2 f_equal. lia.
Qed.

Lemma enumerate_length {A} (l : list A) : forall start,
  length (enumerate start l) = length l.
Proof. induction l as [|x l IH]; intros start; cbn; [done|by rewrite IH]. Qed.

Lemma Forall_stdout lines : Forall hardened_event (List.map Stdout lines).
Proof. induction lines; cbn; by constructor. Qed.

Lemma count_app kind tr1 tr2 : count kind (tr1 ++ tr2) = count kind tr1 + count kind tr2.
Proof. unfold count. by rewrite List.filter_app, length_app. Qed.

Lemma count_stdout kind lines :
  (forall s, kind (Stdout s) = false) -> count kind (List.map Stdout lines) = 0.
Proof.
  intros Hk. unfold count. induction lines as [|l ls IH]; cbn; [done|]. by rewrite Hk.
Qed.

Lemma count_cons kind ev tr :
  count kind (ev :: tr) = (if kind ev then 1 else 0) + count kind tr.
Proof. unfold count. cbn. by destruct (kind ev). Qed.

Lemma count_nil kind : count kind [] = 0.
Proof. reflexivity. Qed.

Section Runs.
Context (w : World).

Lemma load_xml_run path kind tr :
  load_xml w path kind tr
  = (match ET_parse w (Pathlib.str path) secure_parser with
     | Parsed tree => Val tree
     | SyntaxFault e =>
         Exc (RuntimeError (malformed_msg kind e) (Some (XMLSyntaxError e)))
     | ReadFault e =>
         Exc (RuntimeError (unreadable_msg kind path e) (Some (OSError e)))
     | OtherFault class e => Exc (OtherException class e)
     end,
     tr ++ [NewParser secure_parser; Parse (Pathlib.str path) secure_parser]).
Proof.
  unfold load_xml, bind, make_secure_parser, emit, ret, raise. cbn.
  rewrite <- app_assoc. cbn.
  by destruct (ET_parse w (Pathlib.str path) secure_parser).
Qed.

Lemma compile_schema_run tree tr :
  compile_schema w tree tr
  = match reparsed w tree with
    | inr e => (Exc (XMLSyntaxError e), tr ++ compile_events w tree)
    | inl doc =>
        (match ET_XMLSchema w doc with
         | inl schema => Val schema
         | inr error_log =>
             Exc (RuntimeError (Str.join nl (compile_error_lines error_log))
                               (Some (XMLSchemaParseError error_log)))
         end,
         tr ++ compile_events w tree ++ [CompileSchema])
    end.
Proof.
  unfold compile_schema, reparsed, bind, make_secure_parser, emit, ret, raise,
    compile_events. cbn.
  rewrite <- !app_assoc. cbn.
  destruct (ET_fromstring w _ _) as [doc|e]; [|done].
  rewrite <- !app_assoc. cbn.
  by destruct (ET_XMLSchema w doc).
Qed.

Ltac run_simpl :=
  cbn -[String.append Pathlib.str Pathlib.joinpath Pathlib.Path
        rewrite_schema_imports_in_memory marker_remains rewrite_pass has_forbidden
        malformed_msg unreadable_msg compile_error_lines Str.join
        validation_issue enumerate _contains_forbidden compile_events reparsed
        forbidden_msg compile_schema load_xml print_all count].

(** One step of a run: the next call is replaced by what it does, or
    the next answer of the world is split into its cases. *)
Ltac run_step :=
  first
    [ match goal with
      | |- context [load_xml w ?p ?k ?tr] => rewrite (load_xml_run p k tr)
      | |- context [compile_schema w ?t ?tr] => rewrite (compile_schema_run t tr)
      | |- context [print_all ?l ?tr] => rewrite (print_all_run l tr)
      end
    | match goal with
      | |- context [has_forbidden ?s] => destruct (has_forbidden s) eqn:?
      end
    | match goal with
      | |- context [fs_is_dir w ?p] => destruct (fs_is_dir w p) as [[|]|?] eqn:?
      end
    | match goal with
      | |- context [fs_is_file w ?p] => destruct (fs_is_file w p) as [[|]|?] eqn:?
      end
    | match goal with
      | |- context [ET_parse w ?s ?c] => destruct (ET_parse w s c) eqn:?
      end
    | match goal with
      | |- context [rewrite_schema_imports_in_memory ?r ?s ?t ?d] =>
          let H := fresh "Hrewrite" in
          destruct (rewrite_schema_imports_in_memory r s t d) as [?|?] eqn:H;
          [|destruct (rewrite_raises_RuntimeError _ _ _ _ _ H) as [? ->]]
      end
    | match goal with
      | |- context [reparsed w ?t] => destruct (reparsed w t) eqn:?
      end
    | match goal with
      | |- context [ET_XMLSchema w ?d] => destruct (ET_XMLSchema w d) eqn:?
      end
    | match goal with
      | |- context [schema_validate w ?x ?d] => destruct (schema_validate w x d) eqn:?
      end ];
  run_simpl.

Ltac run_validate :=
  unfold validate, bind, try_RuntimeError, is_dir, is_file, stat_answer, fail, print,
    print_stderr, emit, ret, raise;
  run_simpl;
  rewrite !contains_forbidden_spec.

Ltac open_facts :=
  unfold compiled, loaded, checks_pass, parse_file,
    schema_dir_of, submission_of in *;
  repeat match goal with
    | H : exists _, _ |- _ => destruct H as [? H]
    | H : _ /\ _ |- _ => destruct H as [? ?]
    | H : _ && _ = true |- _ => apply andb_true_iff in H as [? ?]
    | H : negb _ = true |- _ => apply negb_true_iff in H
    | H : says_yes ?o = true |- _ => destruct o as [[|]|?] eqn:?; [clear H|discriminate H..]
    | H : is_fault ?o = false |- _ => destruct o eqn:?; [clear H|discriminate H..]
    end.

(** A run in which the answers of the world are known. *)
Ltac run_known :=
  run_validate;
  repeat (first
    [ match goal with
      | |- context [load_xml w ?p ?k ?tr] => rewrite (load_xml_run p k tr)
      | |- context [compile_schema w ?t ?tr] => rewrite (compile_schema_run t tr)
      | |- context [print_all ?l ?tr] => rewrite (print_all_run l tr)
      end
    | match goal with
      | H : ?x = _ |- context [?x] => rewrite H
      end ];
    run_simpl).

Lemma validate_result args : fst (validate w args []) = run_result w args.
Proof.
  unfold run_result, after_loads, after_stat, after_parse, paths_clean, parse_file,
    schema_dir_of, submission_of.
  run_validate.
  repeat (run_step; try reflexivity).
Qed.

Lemma validate_nonconformant_trace args xml_doc schema :
  compiled w args xml_doc schema -> schema_validate w schema xml_doc = false ->
  exists before,
    snd (validate w args [])
    = before ++ Stdout "[Error] Issues:"
        :: List.map Stdout
             (List.map validation_issue
                (enumerate 1 (schema_error_log w schema xml_doc))).
Proof.
  intros Hc Hv. open_facts. run_known. cbn [snd].
  repeat first [by exists [] | apply suffix_cons].
Qed.

Lemma validate_compile_failure_trace args xsd_tree xml_doc rewritten xsd_doc error_log :
  loaded w args xsd_tree xml_doc ->
  rewrite_schema_imports_in_memory (realpath w) (stat_eloop w) xsd_tree
    (schema_dir_of args) = Val rewritten ->
  reparsed w rewritten = inl xsd_doc ->
  ET_XMLSchema w xsd_doc = inr error_log ->
  In (Stderr ("[ERROR] " +:+ Str.join nl (compile_error_lines error_log)))
     (snd (validate w args [])) /\
  ~ In SchemaValidate (snd (validate w args [])).
Proof.
  intros Hl Hrw Hre Hx. open_facts. run_known. cbn [snd]. unfold compile_events.
  split.
  - repeat first [by left | right].
  - cbn. intuition discriminate.
Qed.

Lemma validate_trace_hardened args : Forall hardened_event (snd (validate w args [])).
Proof.
  run_validate. repeat run_step.
  all: cbn [snd]; unfold compile_events; cbn [app].
  all: repeat (constructor; [by hnf|]).
  all: first [by constructor | apply Forall_stdout].
Qed.

Lemma compile_error_lines_lookup error_log i entry :
  error_log !! i = Some entry ->
  compile_error_lines error_log !! S i
  = Some ("  " +:+ Str.of_Z (Z.of_nat i + 1) +:+ ". Line " +:+ Str.of_Z (line entry)
          +:+ ", Col " +:+ Str.of_Z (column entry) +:+ ": " +:+ message entry).
Proof.
  intros Hi. unfold compile_error_lines.
  change ((?x :: ?l) !! S i) with (l !! i).
  rewrite lookup_map, enumerate_lookup, Hi. cbn [fmap option_fmap option_map].
  unfold compile_issue. by rewrite Z.add_comm.
Qed.

Lemma validation_issue_lookup error_log i entry :
  error_log !! i = Some entry ->
  List.map validation_issue (enumerate 1 error_log) !! i
  = Some ("  " +:+ Str.rjust 2 (Str.of_Z (Z.of_nat i + 1)) +:+ ". Line "
          +:+ Str.of_Z (line entry) +:+ ", Col " +:+ Str.of_Z (column entry)
          +:+ ": " +:+ message entry).
Proof.
  intros Hi. rewrite lookup_map, enumerate_lookup, Hi.
  cbn [fmap option_fmap option_map]. unfold validation_issue. by rewrite Z.add_comm.
Qed.

(** *** The result of a run, case by case *)

Lemma checks_pass_inv args :
  checks_pass w args = true ->
  paths_clean args = true /\
  stat_answers w args = [Answer true; Answer true; Answer true; Answer true].
Proof.
  unfold checks_pass, paths_clean, stat_answers. intros H.
  repeat match goal with
    | H : _ && _ = true |- _ => apply andb_true_iff in H as [? ?]
    | H : says_yes ?o = true |- _ => destruct o as [[|]|?]; [clear H|discriminate H..]
    end.
  split; [by apply andb_true_iff|done].
Qed.

Lemma loaded_inv args xsd_tree xml_doc :
  loaded w args xsd_tree xml_doc ->
  checks_pass w args = true /\
  exists ct_tree, parse_answers w args = [Parsed xsd_tree; Parsed ct_tree; Parsed xml_doc].
Proof.
  unfold loaded, parse_answers. intros (Hc & -> & Hct & ->). split; [done|].
  destruct (parse_file w _) as [ct_tree| | |]; [|done..]. by exists ct_tree.
Qed.

Lemma loaded_unique args xsd_tree xml_doc xsd_tree' xml_doc' :
  loaded w args xsd_tree xml_doc -> loaded w args xsd_tree' xml_doc' ->
  xsd_tree' = xsd_tree /\ xml_doc' = xml_doc.
Proof. intros (_ & H1 & _ & H2) (_ & H1' & _ & H2'). split; congruence. Qed.

Lemma run_result_checked args :
  checks_pass w args = true ->
  run_result w args
  = after_parse (parse_file w (schema_dir_of args </> "FSA029-Schema.xsd")) (fun xsd_tree =>
    after_parse (parse_file w (schema_dir_of args </> "CommonTypes-Schema.xsd")) (fun _ =>
    after_parse (parse_file w (submission_of args)) (fun xml_doc =>
      after_loads w args xsd_tree xml_doc))).
Proof.
  intros (Hclean & Hstat)%checks_pass_inv. unfold run_result. rewrite Hclean.
  unfold stat_answers in Hstat. injection Hstat as -> -> -> ->. done.
Qed.

Lemma run_result_loaded args xsd_tree xml_doc :
  loaded w args xsd_tree xml_doc ->
  run_result w args = after_loads w args xsd_tree xml_doc.
Proof.
  intros Hl. pose proof (loaded_inv _ _ _ Hl) as (Hc & ct_tree & Hp).
  rewrite (run_result_checked _ Hc). unfold parse_answers in Hp.
  injection Hp as -> -> ->. done.
Qed.

Ltac close_case :=
  solve [ repeat first [ reflexivity | eassumption | split | eexists
                       | (left; reflexivity) | (right; reflexivity) ] ].

Ltac pick_case := first [ close_case | left; close_case | right; pick_case ].

(** The existence checks: rejected, raised, or passed. *)
Lemma stat_cases args :
  paths_clean args = true ->
  (first_refusal (stat_answers w args) = Some (Answer false) /\
   run_result w args = Val 2%Z) \/
  (exists detail, first_refusal (stat_answers w args) = Some (StatFault detail) /\
                  run_result w args = Exc (OSError detail)) \/
  checks_pass w args = true.
Proof.
  intros Hclean. unfold checks_pass. fold (paths_clean args).
  unfold run_result, first_refusal, stat_answers. rewrite Hclean.
  cbn [negb andb List.find].
  destruct (fs_is_dir w (schema_dir_of args)) as [[|]|?];
    cbn [List.find says_yes negb andb after_stat]; [|pick_case..].
  destruct (fs_is_file w (schema_dir_of args </> "FSA029-Schema.xsd")) as [[|]|?];
    cbn [List.find says_yes negb andb after_stat]; [|pick_case..].
  destruct (fs_is_file w (schema_dir_of args </> "CommonTypes-Schema.xsd")) as [[|]|?];
    cbn [List.find says_yes negb andb after_stat]; [|pick_case..].
  destruct (fs_is_file w (submission_of args)) as [[|]|?];
    cbn [List.find says_yes negb andb after_stat]; pick_case.
Qed.

(** The loads: reported, raised, or done. *)
Lemma parse_cases args :
  checks_pass w args = true ->
  (exists e, (first_fault (parse_answers w args) = Some (SyntaxFault e) \/
              first_fault (parse_answers w args) = Some (ReadFault e)) /\
             run_result w args = Val 2%Z) \/
  (exists class detail,
      first_fault (parse_answers w args) = Some (OtherFault class detail) /\
      run_result w args = Exc (OtherException class detail)) \/
  (exists xsd_tree xml_doc, loaded w args xsd_tree xml_doc).
Proof.
  intros Hc. rewrite (run_result_checked _ Hc).
  unfold loaded, first_fault, parse_answers. rewrite Hc.
  destruct (parse_file w (schema_dir_of args </> "FSA029-Schema.xsd"));
    cbn [List.find is_fault after_parse]; [|pick_case..].
  destruct (parse_file w (schema_dir_of args </> "CommonTypes-Schema.xsd"));
    cbn [List.find is_fault after_parse]; [|pick_case..].
  destruct (parse_file w (submission_of args));
    cbn [List.find is_fault after_parse]; pick_case.
Qed.

Lemma compiled_result args xml_doc schema :
  compiled w args xml_doc schema ->
  run_result w args = if schema_validate w schema xml_doc then Val 0%Z else Val 1%Z.
Proof.
  intros (xsd_tree & rewritten & xsd_doc & Hl & Hrw & Hre & Hx).
  rewrite (run_result_loaded _ _ _ Hl). unfold after_loads. by rewrite Hrw, Hre, Hx.
Qed.

Lemma operational_failure_result args :
  operational_failure w args -> run_result w args = Val 2%Z.
Proof.
  intros [Hclean|[[Hclean Hstat]|[[Hc (e & Hp)]|[H|H]]]].
  - unfold run_result. by rewrite Hclean.
  - destruct (stat_cases _ Hclean) as [[_ ?]|[(? & ? & _)|(_ & ?)%checks_pass_inv]];
      [done|congruence|].
    unfold first_refusal in Hstat. by rewrite H in Hstat.
  - destruct (parse_cases _ Hc) as [(? & _ & ?)|[(? & ? & ? & _)|(? & ? & Hl)]]; [done|..].
    + destruct Hp; congruence.
    + apply loaded_inv in Hl as (_ & ? & Hl). unfold first_fault in Hp.
      rewrite Hl in Hp. destruct Hp; discriminate.
  - destruct H as (xsd_tree & xml_doc & e & Hl & Hrw).
    rewrite (run_result_loaded _ _ _ Hl). unfold after_loads. rewrite Hrw.
    by destruct (rewrite_raises_RuntimeError _ _ _ _ _ Hrw) as [? ->].
  - destruct H as (xsd_tree & xml_doc & rewritten & xsd_doc & error_log
                   & Hl & Hrw & Hre & Hx).
    rewrite (run_result_loaded _ _ _ Hl). unfold after_loads. by rewrite Hrw, Hre, Hx.
Qed.

Lemma unhandled_result args e :
  unhandled w args e -> run_result w args = Exc e.
Proof.
  intros [[Hclean (detail & Hstat & ->)]|[Hc (class & detail & Hp & ->)]].
  - destruct (stat_cases _ Hclean) as [[? _]|[(? & ? & ?)|(_ & ?)%checks_pass_inv]];
      [congruence|congruence|].
    unfold first_refusal in Hstat. by rewrite H in Hstat.
  - destruct (parse_cases _ Hc) as [(? & [?|?] & _)|[(? & ? & ? & ?)|(? & ? & Hl)]];
      [congruence|congruence|congruence|].
    apply loaded_inv in Hl as (_ & ? & Hl). unfold first_fault in Hp.
    by rewrite Hl in Hp.
Qed.

Lemma reparse_fails_result args :
  reparse_fails w args -> exists e, run_result w args = Exc (XMLSyntaxError e).
Proof.
  intros (xsd_tree & xml_doc & rewritten & e & Hl & Hrw & Hre).
  exists e. rewrite (run_result_loaded _ _ _ Hl). unfold after_loads. by rewrite Hrw, Hre.
Qed.

(** Every run is of one of four kinds. *)
Lemma run_classified args :
  (exists xml_doc schema,
      compiled w args xml_doc schema /\
      run_result w args = if schema_validate w schema xml_doc then Val 0%Z else Val 1%Z) \/
  (operational_failure w args /\ run_result w args = Val 2%Z) \/
  (exists e, unhandled w args e /\ run_result w args = Exc e) \/
  (reparse_fails w args /\ exists e, run_result w args = Exc (XMLSyntaxError e)).
Proof.
  assert (Hop : operational_failure w args ->
                operational_failure w args /\ run_result w args = Val 2%Z)
    by (intros H; split; [done|by apply operational_failure_result]).
  assert (Hun : forall e, unhandled w args e ->
                exists e, unhandled w args e /\ run_result w args = Exc e)
    by (intros e H; exists e; split; [done|by apply unhandled_result]).
  destruct (paths_clean args) eqn:Hclean; [|right; left; apply Hop; by left].
  destruct (stat_cases _ Hclean) as [[Hs _]|[(detail & Hs & _)|Hc]].
  { right; left. apply Hop. right; left. done. }
  { right; right; left. apply (Hun (OSError detail)). left. eauto. }
  destruct (parse_cases _ Hc) as [(e & Hp & _)|[(class & detail & Hp & _)|(xsd_tree & xml_doc & Hl)]].
  { right; left. apply Hop. right; right; left. eauto. }
  { right; right; left. apply (Hun (OtherException class detail)). right. eauto 10. }
  destruct (rewrite_schema_imports_in_memory (realpath w) (stat_eloop w) xsd_tree
              (schema_dir_of args)) as [rewritten|e] eqn:Hrw.
  2: { right; left. apply Hop. do 3 right. left. eauto 10. }
  destruct (reparsed w rewritten) as [xsd_doc|e] eqn:Hre.
  2: { do 3 right. split; [|apply reparse_fails_result]; by exists xsd_tree, xml_doc, rewritten, e. }
  destruct (ET_XMLSchema w xsd_doc) as [schema|error_log] eqn:Hx.
  2: { right; left. apply Hop. do 4 right. eauto 10. }
  left. exists xml_doc, schema.
  assert (Hcomp : compiled w args xml_doc schema) by (by exists xsd_tree, rewritten, xsd_doc).
  split; [done|by apply compiled_result].
Qed.


(** C5, as amended: in a run whose rewritten schema parses back, the
    result is 0 exactly when everything was loaded and compiled and the
    document satisfies the schema; 1 exactly when everything was loaded
    and compiled and the document does not, and then the run prints one
    line for every entry of the engine's error log, in the log's order,
    none dropped and none merged; 2 exactly on a failure that the
    program reports itself (forbidden path, missing directory or file,
    unreadable or malformed file, a rewrite that raises, compilation
    failure).  The run raises, and returns no code, exactly when an
    existence check fails with an [OSError] or a parse raises something
    else than [XMLSyntaxError] and [OSError]: no handler names these.
    A code that is returned is 0, 1 or 2. *)
Theorem run_result_is_tri_state args :
  ~ reparse_fails w args ->
  let r := fst (validate w args []) in
  (r = Val 0%Z <->
     exists xml_doc schema,
       compiled w args xml_doc schema /\ schema_validate w schema xml_doc = true) /\
  (r = Val 1%Z <->
     exists xml_doc schema,
       compiled w args xml_doc schema /\ schema_validate w schema xml_doc = false) /\
  (forall xml_doc schema,
      compiled w args xml_doc schema -> schema_validate w schema xml_doc = false ->
      let error_log := schema_error_log w schema xml_doc in
      let issues := List.map validation_issue (enumerate 1 error_log) in
      (exists before,
          snd (validate w args [])
          = before ++ Stdout "[Error] Issues:" :: List.map Stdout issues) /\
      length issues = length error_log /\
      (forall i entry, error_log !! i = Some entry ->
         issues !! i
         = Some ("  " +:+ Str.rjust 2 (Str.of_Z (Z.of_nat i + 1)) +:+ ". Line "
                 +:+ Str.of_Z (line entry) +:+ ", Col " +:+ Str.of_Z (column entry)
                 +:+ ": " +:+ message entry))) /\
  (r = Val 2%Z <-> operational_failure w args) /\
  (forall e, r = Exc e <-> unhandled w args e) /\
  (forall c, r = Val c -> c = 0%Z \/ c = 1%Z \/ c = 2%Z).
Proof.
  intros Hre. cbv zeta. rewrite validate_result.
  split; [|split; [|split; [|split; [|split]]]].
  - split.
    + destruct (run_classified args)
        as [(xml_doc & schema & Hc & ->)|[[_ ->]|[(e & _ & ->)|[_ [e ->]]]]]; try done.
      destruct (schema_validate w schema xml_doc) eqn:Hv; [eauto|done].
    + intros (xml_doc & schema & Hc & Hv). by rewrite (compiled_result _ _ _ Hc), Hv.
  - split.
    + destruct (run_classified args)
        as [(xml_doc & schema & Hc & ->)|[[_ ->]|[(e & _ & ->)|[_ [e ->]]]]]; try done.
      destruct (schema_validate w schema xml_doc) eqn:Hv; [done|eauto].
    + intros (xml_doc & schema & Hc & Hv). by rewrite (compiled_result _ _ _ Hc), Hv.
  - intros xml_doc schema Hc Hv. split; [by apply validate_nonconformant_trace|].
    split; [by rewrite length_map, enumerate_length|].
    apply validation_issue_lookup.
  - split; [|apply operational_failure_result].
    destruct (run_classified args)
      as [(xml_doc & schema & Hc & ->)|[[? ->]|[(e & _ & ->)|[_ [e ->]]]]]; try done.
    by destruct (schema_validate w schema xml_doc).
  - intros e. split; [|apply unhandled_result].
    destruct (run_classified args)
      as [(xml_doc & schema & Hc & ->)|[[? ->]|[(e' & ? & ->)|[? _]]]]; try done.
    + by destruct (schema_validate w schema xml_doc).
    + by intros [= <-].
  - intros c.
    destruct (run_classified args)
      as [(xml_doc & schema & Hc & ->)|[[? ->]|[(e' & ? & ->)|[_ [e ->]]]]]; try done.
    + destruct (schema_validate w schema xml_doc); intros [= <-]; auto.
    + intros [= <-]. auto.
Qed.

(** C6: when the engine rejects the rewritten schema, [compile_schema]
    raises one error whose message has a header and then one line for
    every entry of the engine's error log, in order, with the entry's
    line, column and message; the run prints it, returns 2 and never
    calls [schema.validate]. *)
Theorem compilation_failure_is_terminal
    args xsd_tree xml_doc rewritten xsd_doc error_log :
  loaded w args xsd_tree xml_doc ->
  rewrite_schema_imports_in_memory (realpath w) (stat_eloop w) xsd_tree
    (schema_dir_of args) = Val rewritten ->
  reparsed w rewritten = inl xsd_doc ->
  ET_XMLSchema w xsd_doc = inr error_log ->
  let report := Str.join nl (compile_error_lines error_log) in
  (forall tr, fst (compile_schema w rewritten tr)
              = Exc (RuntimeError report (Some (XMLSchemaParseError error_log)))) /\
  length (compile_error_lines error_log) = S (length error_log) /\
  (forall i entry, error_log !! i = Some entry ->
     compile_error_lines error_log !! S i
     = Some ("  " +:+ Str.of_Z (Z.of_nat i + 1) +:+ ". Line " +:+ Str.of_Z (line entry)
             +:+ ", Col " +:+ Str.of_Z (column entry) +:+ ": " +:+ message entry)) /\
  fst (validate w args []) = Val 2%Z /\
  In (Stderr ("[ERROR] " +:+ report)) (snd (validate w args [])) /\
  ~ In SchemaValidate (snd (validate w args [])).
Proof.
  intros Hl Hrw Hre Hx report.
  split; [|split; [|split; [|split]]].
  - intros tr. rewrite compile_schema_run. by rewrite Hre, Hx.
  - unfold compile_error_lines. cbn [length]. by rewrite length_map, enumerate_length.
  - apply compile_error_lines_lookup.
  - rewrite validate_result, (run_result_loaded _ _ _ Hl). unfold after_loads.
    by rewrite Hrw, Hre, Hx.
  - by apply (validate_compile_failure_trace args xsd_tree xml_doc rewritten xsd_doc).
Qed.

(** C7, as amended: [load_xml] returns a tree exactly when the parse
    succeeds; it raises the malformed-XML error exactly when the parser
    reports a syntax error, and the unreadable-source error exactly when
    the parser reports an [OSError]; both are [RuntimeError]s raised
    from the low-level exception, with the messages written out below;
    they differ (in their cause, and in their message for the labels
    the pipeline uses) and the unreadable-source message names the
    path.  An exception of any other class goes to the caller as it
    is.  Nothing else is raised, and a failure yields no tree. *)
Theorem load_xml_failures path kind tr :
  let r := fst (load_xml w path kind tr) in
  let answer := ET_parse w (Pathlib.str path) secure_parser in
  let malformed e := "[Error] " +:+ kind +:+ " is not well-formed XML: " +:+ e in
  let unreadable e :=
    "[Error] Cannot read " +:+ kind +:+ " at " +:+ Pathlib.str path +:+ ": " +:+ e in
  (forall tree, answer = Parsed tree <-> r = Val tree) /\
  (forall e, answer = SyntaxFault e <->
             r = Exc (RuntimeError (malformed e) (Some (XMLSyntaxError e)))) /\
  (forall e, answer = ReadFault e <->
             r = Exc (RuntimeError (unreadable e) (Some (OSError e)))) /\
  (forall class e, answer = OtherFault class e <-> r = Exc (OtherException class e)) /\
  (forall x, r = Exc x ->
     (exists e, x = RuntimeError (malformed e) (Some (XMLSyntaxError e))) \/
     (exists e, x = RuntimeError (unreadable e) (Some (OSError e))) \/
     (exists class e, x = OtherException class e)) /\
  (forall e e', RuntimeError (malformed e) (Some (XMLSyntaxError e))
                <> RuntimeError (unreadable e') (Some (OSError e'))) /\
  (forall e e', In kind ["Main XSD"; "CommonTypes XSD"; "Submission"] ->
                malformed e <> unreadable e') /\
  (forall e, Str.contains (Pathlib.str path) (unreadable e) = true).
Proof.
  cbv zeta. rewrite load_xml_run. cbn [fst]. unfold malformed_msg, unreadable_msg.
  assert (Hpath : forall e,
            Str.contains (Pathlib.str path)
              ("[Error] Cannot read " +:+ kind +:+ " at " +:+ Pathlib.str path +:+ ": " +:+ e)
            = true).
  { intros e. rewrite <- (append_assoc "[Error] Cannot read " kind).
    rewrite <- (append_assoc _ " at "). apply contains_infix. }
  destruct (ET_parse w (Pathlib.str path) secure_parser) as [tree|e|e|class e].
  all: repeat split; intros; try congruence; eauto.
  all: try match goal with
       | H : In _ _ |- _ =>
           cbn in H; destruct H as [<-|[<-|[<-|[]]]]; cbn; discriminate
       end.
  all: match goal with H : Exc _ = Exc _ |- _ => injection H as <-; eauto 6 end.
Qed.

(** C8: the schema [compile_schema] returns is the one obtained by
    serialising the tree (XML declaration, UTF-8), parsing those bytes
    again under the hardened configuration and compiling the fresh
    tree; the calls happen in that order. *)
Theorem compile_schema_compiles_the_reparse tree tr :
  (forall schema, fst (compile_schema w tree tr) = Val schema <->
                  compile_by_reparse w tree = Some schema) /\
  (forall schema, fst (compile_schema w tree tr) = Val schema ->
     snd (compile_schema w tree tr)
     = tr ++ [NewParser secure_parser; ToString true "utf-8";
              FromString (ET_tostring w tree true "utf-8") secure_parser;
              CompileSchema]).
Proof.
  rewrite compile_schema_run. unfold compile_by_reparse, compile_events, reparsed.
  destruct (ET_fromstring w (ET_tostring w tree true "utf-8") secure_parser) as [doc|e];
    cbn [fst snd]; [|split; [intros; split; congruence|intros; discriminate]].
  destruct (ET_XMLSchema w doc) as [schema|error_log]; split; intros;
    try split; try congruence; try done.
Qed.

(** C9: the parser [make_secure_parser] builds has DTD loading, entity
    resolution, network access and huge trees switched off, whenever
    and however often it is called; every parser a run builds, and
    every parser a run parses with (the three loads and the re-parse
    before compilation), is that one. *)
Theorem every_parser_is_the_hardened_one args :
  (load_dtd secure_parser = false /\ resolve_entities secure_parser = false /\
   no_network secure_parser = true /\ huge_tree secure_parser = false) /\
  (forall tr, make_secure_parser tr = (Val secure_parser, tr ++ [NewParser secure_parser])) /\
  (forall ev cfg, In ev (snd (validate w args [])) -> uses_parser ev = Some cfg ->
                  cfg = secure_parser).
Proof.
  split; [done|]. split; [done|].
  intros ev cfg Hin Hcfg.
  pose proof (validate_trace_hardened args) as Hall.
  rewrite Forall_forall in Hall. specialize (Hall ev (proj2 (list_elem_of_In _ _) Hin)).
  unfold hardened_event in Hall. by rewrite Hcfg in Hall.
Qed.

(** *** More on runs *)

(** X7: nothing is parsed, neither a file nor a byte string, unless
    both paths are free of markers and the directory and the three files
    are there: a run whose trace holds a load is a run in which all the
    checks passed. *)
Theorem nothing_is_parsed_unless_the_checks_pass args ev :
  In ev (snd (validate w args [])) -> is_load ev = true -> checks_pass w args = true.
Proof.
  intros Hin Hload. destruct (checks_pass w args) eqn:Hc; [done|]. exfalso.
  revert Hin Hload Hc.
  unfold checks_pass, schema_dir_of, submission_of.
  run_validate. repeat run_step.
  all: cbn [snd negb andb says_yes]; intros Hin Hload Hc; try discriminate Hc.
  all: cbn in Hin; intuition (subst; discriminate).
Qed.

Ltac count_events :=
  unfold compile_events;
  repeat (progress (rewrite ?count_app, ?count_cons, ?count_nil));
  rewrite ?count_stdout by done;
  cbn [is_parse is_stderr is_schema_validate is_stat Nat.add].

Ltac count_leaf :=
  cbn [fst snd negb andb is_fault says_yes]; count_events;
  try reflexivity; try discriminate.

(** X8: the three files are parsed in the order main schema, common
    types, submission, and the first one that fails ends the loading:
    a run that passed the checks calls [ET.parse] once, twice or three
    times according to the first file that is at fault. *)
Theorem loading_stops_at_the_first_failure args :
  checks_pass w args = true ->
  count is_parse (snd (validate w args []))
  = if is_fault (parse_file w (schema_dir_of args </> "FSA029-Schema.xsd")) then 1
    else if is_fault (parse_file w (schema_dir_of args </> "CommonTypes-Schema.xsd")) then 2
    else 3.
Proof.
  unfold checks_pass, parse_file, schema_dir_of, submission_of.
  run_validate. repeat run_step.
  all: count_leaf.
Qed.

(** X13: with both paths free of markers, the existence checks are
    made in the order directory, main schema, common types, submission,
    and the first one that is not answered with yes ends them: the file
    system is asked once, twice, three or four times accordingly. *)
Theorem existence_checks_stop_at_the_first_failure args :
  has_forbidden (Pathlib.str (schema_dir_of args)) = false ->
  has_forbidden (Pathlib.str (submission_of args)) = false ->
  count is_stat (snd (validate w args []))
  = if negb (says_yes (fs_is_dir w (schema_dir_of args))) then 1
    else if negb (says_yes (fs_is_file w (schema_dir_of args </> "FSA029-Schema.xsd")))
    then 2
    else if negb (says_yes (fs_is_file w (schema_dir_of args </> "CommonTypes-Schema.xsd")))
    then 3
    else 4.
Proof.
  unfold schema_dir_of, submission_of.
  run_validate. repeat run_step.
  all: count_leaf.
Qed.

(** X10: a run that returns 2 printed to standard error exactly once,
    as the last thing it did; every other run, returning 0 or 1 or
    raising, printed nothing there. *)
Theorem one_line_on_stderr_exactly_when_the_run_fails args :
  let r := fst (validate w args []) in
  let tr := snd (validate w args []) in
  (r = Val 2%Z -> count is_stderr tr = 1 /\ exists msg, last tr = Some (Stderr msg)) /\
  (r <> Val 2%Z -> count is_stderr tr = 0).
Proof.
  run_validate. repeat run_step.
  all: cbn [fst snd]; split; intros Hr; try done; try discriminate Hr.
  all: count_events; try reflexivity.
  all: split; [reflexivity|eexists; reflexivity].
Qed.

(** X12: the submission is validated against the schema exactly once
    in a run that returns 0 or 1, and not at all in any other run. *)
Theorem the_document_is_validated_once_or_not_at_all args :
  count is_schema_validate (snd (validate w args []))
  = match fst (validate w args []) with
    | Val code => if (code =? 0)%Z || (code =? 1)%Z then 1 else 0
    | Exc _ => 0
    end.
Proof.
  run_validate. repeat run_step.
  all: cbn [fst snd]; count_events; reflexivity.
Qed.

(** X11: when the serialised schema does not parse back, the
    [XMLSyntaxError] leaves [compile_schema] as it is, not as a
    [RuntimeError]; [validate] does not catch it, so the run raises it
    rather than returning 2, writes nothing to standard error and never
    reaches the schema compiler. *)
Theorem a_failed_reparse_escapes_the_run args xsd_tree xml_doc rewritten e :
  loaded w args xsd_tree xml_doc ->
  rewrite_schema_imports_in_memory (realpath w) (stat_eloop w) xsd_tree
    (schema_dir_of args) = Val rewritten ->
  reparsed w rewritten = inr e ->
  (forall tr, compile_schema w rewritten tr
              = (Exc (XMLSyntaxError e), tr ++ compile_events w rewritten)) /\
  fst (validate w args []) = Exc (XMLSyntaxError e) /\
  count is_stderr (snd (validate w args [])) = 0 /\
  ~ In CompileSchema (snd (validate w args [])).
Proof.
  intros Hl Hrw Hre. split.
  { intros tr. by rewrite compile_schema_run, Hre. }
  open_facts. run_known. cbn [fst snd]. unfold compile_events.
  split; [done|]. split; [by count_events|]. cbn. intuition discriminate.
Qed.
End Runs.

(** X9: the tree read from the common-types file is thrown away.  Two
    worlds that differ only in what that file parses to, and agree on
    whether it parses and on what the parse raises, give the same
    result. *)
Theorem common_types_tree_is_only_checked_for_loading w parse args :
  let fsa_xsd := schema_dir_of args </> "FSA029-Schema.xsd" in
  let ct_xsd := schema_dir_of args </> "CommonTypes-Schema.xsd" in
  parse (Pathlib.str fsa_xsd) secure_parser = parse_file w fsa_xsd ->
  parse (Pathlib.str (submission_of args)) secure_parser = parse_file w (submission_of args) ->
  is_fault (parse (Pathlib.str ct_xsd) secure_parser) = is_fault (parse_file w ct_xsd) ->
  escapes (parse (Pathlib.str ct_xsd) secure_parser) = escapes (parse_file w ct_xsd) ->
  fst (validate (with_parse w parse) args []) = fst (validate w args []).
Proof.
  intros fsa_xsd ct_xsd H1 H3 H2 H2'. rewrite !validate_result.
  unfold run_result, after_stat, after_parse, after_loads, parse_file, reparsed in *.
  cbn [with_parse XMLSchema realpath stat_eloop fs_is_dir fs_is_file ET_parse ET_tostring
       ET_fromstring ET_XMLSchema schema_validate schema_error_log].
  fold fsa_xsd ct_xsd. rewrite H1, H3.
  destruct (parse (Pathlib.str ct_xsd) secure_parser),
    (ET_parse w (Pathlib.str ct_xsd) secure_parser);
    try discriminate H2; try discriminate H2'; try reflexivity.
  cbn in H2'. by injection H2' as -> ->.
Qed.

(** ** Examples *)

(** [str(Path(s))] drops a trailing separator: the raw argument below
    holds the marker, the path the check reads does not. *)
Remark path_string_drops_trailing_separator :
  Str.contains "/CommonTypes/v14/" "/srv/regulator/CommonTypes/v14/" = true /\
  Pathlib.str (Pathlib.Path "/srv/regulator/CommonTypes/v14/")
  = "/srv/regulator/CommonTypes/v14" /\
  has_forbidden (Pathlib.str (Pathlib.Path "/srv/regulator/CommonTypes/v14/")) = false.
Proof. repeat split; vm_compute; reflexivity. Qed.

(** A location written with backslashes matches the marker that line 52
    tests for, but [Path(loc).name] splits at '/' only: the name is the
    whole location, and the URI written ends in its percent-encoded
    text, not in the file name. *)
Remark backslash_location_keeps_its_whole_text :
  let loc := "..\CommonTypes\v14\CommonTypes-Schema.xsd" in
  has_forbidden loc = true /\
  Pathlib.name (Pathlib.Path loc) = loc /\
  file_name_any_separator loc = "CommonTypes-Schema.xsd" /\
  rewrite_schema_imports_in_memory no_links no_loops (schema_with [xs_import loc])
    (Pathlib.Path "/srv/schemas")
  = Val (schema_with
           [xs_import "file:///srv/schemas/..%5CCommonTypes%5Cv14%5CCommonTypes-Schema.xsd"]).
Proof. repeat split; vm_compute; reflexivity. Qed.

(** A whole run: the engine accepts the schema and finds two issues. *)
Example non_conformant_run :
  validate strict_world (mkArgs "/srv/schemas" "/srv/in/submission.xml") []
  = (Val 1%Z,
     [Stat "is_dir" "/srv/schemas";
      Stat "is_file" "/srv/schemas/FSA029-Schema.xsd";
      Stat "is_file" "/srv/schemas/CommonTypes-Schema.xsd";
      Stat "is_file" "/srv/in/submission.xml";
      NewParser secure_parser;
      Parse "/srv/schemas/FSA029-Schema.xsd" secure_parser;
      NewParser secure_parser;
      Parse "/srv/schemas/CommonTypes-Schema.xsd" secure_parser;
      NewParser secure_parser;
      Parse "/srv/in/submission.xml" secure_parser;
      Stdout "[OK] Loaded XSDs & submission securely.";
      NewParser secure_parser;
      ToString true "utf-8";
      FromString "<?xml version='1.0' encoding='utf-8'?>" secure_parser;
      CompileSchema;
      SchemaValidate;
      Stdout "[Error] Issues:";
      Stdout "   1. Line 2, Col 0: Element 'b': not expected";
      Stdout "   2. Line 2, Col 0: Element 'b': not expected"]).
Proof. vm_compute. reflexivity. Qed.

(** A run that the rewrite ends: [resolve] meets a link to itself, the
    [RuntimeError] is reported like any other and the run returns 2. *)
Example symlink_loop_run :
  let w := with_parse
             (with_loops strict_world one_loop)
             (fun _ _ => Parsed (schema_with [xs_import "loop.xsd"])) in
  validate w (mkArgs "/srv/schemas" "/srv/in/submission.xml") []
  = (Val 2%Z,
     [Stat "is_dir" "/srv/schemas";
      Stat "is_file" "/srv/schemas/FSA029-Schema.xsd";
      Stat "is_file" "/srv/schemas/CommonTypes-Schema.xsd";
      Stat "is_file" "/srv/in/submission.xml";
      NewParser secure_parser;
      Parse "/srv/schemas/FSA029-Schema.xsd" secure_parser;
      NewParser secure_parser;
      Parse "/srv/schemas/CommonTypes-Schema.xsd" secure_parser;
      NewParser secure_parser;
      Parse "/srv/in/submission.xml" secure_parser;
      Stdout "[OK] Loaded XSDs & submission securely.";
      Stderr "[ERROR] Symlink loop from '/srv/schemas/loop.xsd'"]).
Proof. vm_compute. reflexivity. Qed.

(** C1, a run of the amended statement: the canonical location is
    rewritten and nothing matches afterwards. *)
Lemma rewrite_completeness_witness :
  let xsd_tree := schema_with [xs_import canonical_location] in
  let schema_dir := Pathlib.Path "/srv/schemas" in
  let root := ET.getroot xsd_tree in
  Forall (fun p => resolves no_links no_loops schema_dir (location_at root p))
         (located_references root) /\
  Forall (fun p => resolves_in_place no_links schema_dir (location_at root p))
         (matching_references root) /\
  has_forbidden (Pathlib.as_uri (Pathlib.real no_links schema_dir) +:+ "/") = false /\
  exists rewritten,
    rewrite_schema_imports_in_memory no_links no_loops xsd_tree schema_dir = Val rewritten /\
    matching_references (ET.getroot rewritten) = [] /\
    location_at (ET.getroot rewritten) [0] = "file:///srv/schemas/CommonTypes-Schema.xsd".
Proof.
  intros xsd_tree schema_dir root.
  assert (H1 : Forall (fun p => resolves no_links no_loops schema_dir (location_at root p))
                      (located_references root))
    by (repeat constructor).
  assert (H2 : Forall (fun p => resolves_in_place no_links schema_dir (location_at root p))
                      (matching_references root))
    by (repeat constructor).
  assert (H3 : has_forbidden (Pathlib.as_uri (Pathlib.real no_links schema_dir) +:+ "/")
               = false) by reflexivity.
  split; [exact H1|]. split; [exact H2|]. split; [exact H3|].
  destruct (rewrite_completeness no_links no_loops xsd_tree schema_dir H1 H2 H3)
    as (rewritten & Hrun & Hnone & _ & _ & Hloc & _).
  exists rewritten. split; [exact Hrun|]. split; [exact Hnone|].
  assert (Hin : In [0] (matching_references root)) by (vm_compute; by left).
  destruct (Hloc [0] Hin) as (_ & _ & Hname).
  destruct (Hname eq_refl) as (-> & _). reflexivity.
Defined.

(** C1 as it is stated fails in four ways.  With a trusted directory
    that is itself ".../CommonTypes/v14" the URI written holds the
    marker and the function raises.  When the entry is a symbolic link
    to itself, [resolve] raises.  When the entry is a symbolic link to a
    file elsewhere, the URI written is the one of that file: it is not
    in the trusted directory and does not end in the file name.  And a
    reference node that is the root of the tree is not looked at. *)
Lemma rewrite_completeness_counterexample :
  (matching_references (ET.getroot (schema_with [xs_import canonical_location])) = [[0]] /\
   rewrite_schema_imports_in_memory no_links no_loops
     (schema_with [xs_import canonical_location]) (Pathlib.Path "/data/CommonTypes/v14")
   = Exc rewrite_incomplete) /\
  (let loc := "http://www.fsa.gov.uk/XMLSchema/CommonTypes/v14/loop.xsd" in
   matching_references (ET.getroot (schema_with [xs_import loc])) = [[0]] /\
   rewrite_schema_imports_in_memory no_links one_loop (schema_with [xs_import loc])
     (Pathlib.Path "/srv/schemas")
   = Exc (symlink_loop "'/srv/schemas/loop.xsd'")) /\
  (exists t,
     rewrite_schema_imports_in_memory one_link no_loops
       (schema_with [xs_import canonical_location]) (Pathlib.Path "/srv/schemas") = Val t /\
     file_name_any_separator canonical_location = "CommonTypes-Schema.xsd" /\
     location_at (ET.getroot t) [0] = "file:///mnt/vendor/ct-14.xsd") /\
  (let tree := ET.mkTree "" (xs_import canonical_location) in
   is_reference (ET.getroot tree) = true /\
   has_forbidden (default "" (ET.get (ET.getroot tree) "schemaLocation")) = true /\
   rewrite_schema_imports_in_memory no_links no_loops tree (Pathlib.Path "/srv/schemas")
   = Val tree).
Proof.
  split; [|split; [|split]].
  - repeat split; vm_compute; reflexivity.
  - repeat split; vm_compute; reflexivity.
  - eexists. repeat split; vm_compute; reflexivity.
  - repeat split; vm_compute; reflexivity.
Qed.

(** C2 as it is stated fails when the root of the tree is a reference
    node: the searches start below the root, the marker in the root's
    location is neither rewritten nor found, and the function
    returns. *)
Lemma completeness_check_counterexample :
  let tree := ET.mkTree "" (xs_import canonical_location) in
  let schema_dir := Pathlib.Path "/srv/schemas" in
  is_reference (ET.getroot tree) = true /\
  has_forbidden (default "" (ET.get (ET.getroot tree) "schemaLocation")) = true /\
  rewrite_pass no_links no_loops schema_dir (ET.getroot tree) = Val (ET.getroot tree) /\
  rewrite_schema_imports_in_memory no_links no_loops tree schema_dir = Val tree.
Proof. repeat split; vm_compute; reflexivity. Qed.

(** C10, a run of the amended statement. *)
Lemma rewrite_returns_witness :
  let xsd_tree := schema_with [xs_import "../../CommonTypes/v14/CommonTypes-Schema.xsd"] in
  let schema_dir := Pathlib.Path "/srv/schemas" in
  let root := ET.getroot xsd_tree in
  Forall (fun p => resolves no_links no_loops schema_dir (location_at root p))
         (located_references root) /\
  Forall (fun p => resolves_in_place no_links schema_dir (location_at root p))
         (matching_references root) /\
  has_forbidden (Pathlib.as_uri (Pathlib.real no_links schema_dir) +:+ "/") = false /\
  exists root',
    rewrite_pass no_links no_loops schema_dir root = Val root' /\
    marker_remains root' = false /\
    rewrite_schema_imports_in_memory no_links no_loops xsd_tree schema_dir
    = Val (ET.mkTree (ET.docinfo xsd_tree) root').
Proof.
  intros xsd_tree schema_dir root.
  assert (H1 : Forall (fun p => resolves no_links no_loops schema_dir (location_at root p))
                      (located_references root))
    by (repeat constructor).
  assert (H2 : Forall (fun p => resolves_in_place no_links schema_dir (location_at root p))
                      (matching_references root))
    by (repeat constructor).
  assert (H3 : has_forbidden (Pathlib.as_uri (Pathlib.real no_links schema_dir) +:+ "/")
               = false) by reflexivity.
  split; [exact H1|]. split; [exact H2|]. split; [exact H3|].
  exact (rewrite_returns_when_uris_are_clean no_links no_loops xsd_tree schema_dir H1 H2 H3).
Defined.

(** C10 as it is stated fails.  The resolved URI of a trusted directory
    named ".../CommonTypes/v14" does not hold the marker (nothing follows
    "v14"), the check in [validate] lets the directory through, and the
    URI of every file in it holds the marker: the second pass raises.
    And in a directory whose URI is clean, [resolve] raises for an entry
    that is a symbolic link to itself, whether the location holds the
    marker or not. *)
Lemma rewrite_raises_counterexample :
  (let schema_dir := Pathlib.Path "/srv/regulator/CommonTypes/v14" in
   let xsd_tree :=
     schema_with [ET.Comment "FSA029" "";
                  xs_import "../../CommonTypes/v14/CommonTypes-Schema.xsd"] in
   has_forbidden (Pathlib.str schema_dir) = false /\
   Pathlib.as_uri (Pathlib.real no_links schema_dir)
   = "file:///srv/regulator/CommonTypes/v14" /\
   has_forbidden (Pathlib.as_uri (Pathlib.real no_links schema_dir)) = false /\
   rewrite_schema_imports_in_memory no_links no_loops xsd_tree schema_dir
   = Exc rewrite_incomplete) /\
  (let schema_dir := Pathlib.Path "/srv/schemas" in
   let xsd_tree := schema_with [xs_import "loop.xsd"] in
   has_forbidden (Pathlib.as_uri (Pathlib.real no_links schema_dir)) = false /\
   matching_references (ET.getroot xsd_tree) = [] /\
   rewrite_schema_imports_in_memory no_links one_loop xsd_tree schema_dir
   = Exc (symlink_loop "'/srv/schemas/loop.xsd'")).
Proof. repeat split; vm_compute; reflexivity. Qed.



(** C5, a run of the amended statement. *)
Lemma run_result_witness :
  let args := mkArgs "/srv/schemas" "/srv/in/submission.xml" in
  ~ reparse_fails strict_world args /\
  (fst (validate strict_world args []) = Val 1%Z <->
   exists xml_doc schema,
     compiled strict_world args xml_doc schema /\
     schema_validate strict_world schema xml_doc = false).
Proof.
  intros args.
  assert (H : ~ reparse_fails strict_world args).
  { intros (xsd_tree & xml_doc & rewritten & e & _ & _ & Hre). discriminate Hre. }
  split; [exact H|].
  exact (proj1 (proj2 (run_result_is_tri_state strict_world args H))).
Defined.

(** C5 as it is stated fails: a run has outcomes besides the three
    codes.  An existence check whose [stat] fails with an [OSError]
    that pathlib hands on ends the run with that exception, and so does
    a parse that raises something else than [XMLSyntaxError] and
    [OSError]; neither run returns 2. *)
Lemma run_result_counterexample :
  let args := mkArgs "/srv/schemas" "/srv/in/submission.xml" in
  (let denied := "[Errno 13] Permission denied: '/srv/schemas'" in
   let w := with_stat strict_world (fun _ => StatFault denied) (fs_is_file strict_world) in
   validate w args [] = (Exc (OSError denied), [Stat "is_dir" "/srv/schemas"])) /\
  (let detail := "'utf-8' codec can't encode character '\udcff'" in
   let w := with_parse strict_world (fun _ _ => OtherFault "UnicodeEncodeError" detail) in
   fst (validate w args []) = Exc (OtherException "UnicodeEncodeError" detail) /\
   count is_stderr (snd (validate w args [])) = 0).
Proof. repeat split; vm_compute; reflexivity. Qed.

(** C6, a run: the engine rejects the schema with two issues. *)
Lemma compilation_failure_witness :
  let args := mkArgs "/srv/schemas" "/srv/in/submission.xml" in
  let xsd_tree := schema_with [xs_import canonical_location] in
  let rewritten :=
    schema_with [xs_import "file:///srv/schemas/CommonTypes-Schema.xsd"] in
  let xsd_doc := ET.Element (xs "schema") [] "" [] "" in
  let error_log := [mkEntry 3 0 "element decl. 'a': unknown type";
                    mkEntry 7 12 "attribute 'use': bad value"] in
  loaded rejecting_world args xsd_tree xsd_tree /\
  rewrite_schema_imports_in_memory (realpath rejecting_world) (stat_eloop rejecting_world)
    xsd_tree (schema_dir_of args) = Val rewritten /\
  reparsed rejecting_world rewritten = inl xsd_doc /\
  ET_XMLSchema rejecting_world xsd_doc = inr error_log /\
  compile_error_lines error_log
  = ["[Error] Schema compilation failed (2 issue(s)):";
     "  1. Line 3, Col 0: element decl. 'a': unknown type";
     "  2. Line 7, Col 12: attribute 'use': bad value"] /\
  fst (validate rejecting_world args []) = Val 2%Z /\
  ~ In SchemaValidate (snd (validate rejecting_world args [])).
Proof.
  intros args xsd_tree rewritten xsd_doc error_log.
  assert (H1 : loaded rejecting_world args xsd_tree xsd_tree)
    by (repeat split; vm_compute; reflexivity).
  assert (H2 : rewrite_schema_imports_in_memory (realpath rejecting_world)
                 (stat_eloop rejecting_world) xsd_tree (schema_dir_of args) = Val rewritten)
    by (vm_compute; reflexivity).
  assert (H3 : reparsed rejecting_world rewritten = inl xsd_doc) by reflexivity.
  assert (H4 : ET_XMLSchema rejecting_world xsd_doc = inr error_log) by reflexivity.
  pose proof (compilation_failure_is_terminal rejecting_world args xsd_tree xsd_tree
                rewritten xsd_doc error_log H1 H2 H3 H4) as (_ & _ & _ & H5 & _ & H6).
  split; [exact H1|]. split; [exact H2|]. split; [exact H3|]. split; [exact H4|].
  split; [vm_compute; reflexivity|]. split; [exact H5|exact H6].
Defined.

(** C7 as it is stated fails: for a file name that the parser cannot
    encode [ET.parse] raises a [UnicodeEncodeError], which neither
    [except] clause of [load_xml] names; the caller gets that exception
    and no [RuntimeError]. *)
Lemma load_xml_counterexample :
  let detail := "'utf-8' codec can't encode character '\udcff'" in
  let w := with_parse strict_world (fun _ _ => OtherFault "UnicodeEncodeError" detail) in
  let path := Pathlib.Path "/srv/in/submission.xml" in
  load_xml w path "Submission" []
  = (Exc (OtherException "UnicodeEncodeError" detail),
     [NewParser secure_parser; Parse "/srv/in/submission.xml" secure_parser]) /\
  forall msg cause, fst (load_xml w path "Submission" []) <> Exc (RuntimeError msg cause).
Proof. split; [vm_compute; reflexivity|]. intros msg cause. vm_compute. discriminate. Qed.

(** X1, a run: the rewritten tree, given to the rewriter again for a
    directory that holds the marker. *)
Lemma rewritten_tree_is_a_fixed_point_witness :
  let xsd_tree := schema_with [xs_import canonical_location] in
  let rewritten := schema_with [xs_import "file:///srv/schemas/CommonTypes-Schema.xsd"] in
  rewrite_schema_imports_in_memory no_links no_loops xsd_tree (Pathlib.Path "/srv/schemas")
  = Val rewritten /\
  rewrite_schema_imports_in_memory no_links one_loop rewritten
    (Pathlib.Path "/data/CommonTypes/v14")
  <> Exc rewrite_incomplete.
Proof.
  intros xsd_tree rewritten.
  assert (H : rewrite_schema_imports_in_memory no_links no_loops xsd_tree
                (Pathlib.Path "/srv/schemas") = Val rewritten) by (vm_compute; reflexivity).
  split; [exact H|].
  exact (proj1 (proj2 (rewritten_tree_is_a_fixed_point no_links no_loops xsd_tree
                         (Pathlib.Path "/srv/schemas") rewritten no_links one_loop
                         (Pathlib.Path "/data/CommonTypes/v14") H))).
Defined.

(** X4, a run. *)
Lemma second_pass_visits_the_same_nodes_witness :
  let root := ET.getroot (schema_with [ET.Comment "FSA029" ""; xs_import canonical_location]) in
  let root' :=
    ET.getroot (schema_with [ET.Comment "FSA029" "";
                             xs_import "file:///srv/schemas/CommonTypes-Schema.xsd"]) in
  rewrite_pass no_links no_loops (Pathlib.Path "/srv/schemas") root = Val root' /\
  reference_nodes root' = reference_nodes root.
Proof.
  intros root root'.
  assert (H : rewrite_pass no_links no_loops (Pathlib.Path "/srv/schemas") root = Val root')
    by (vm_compute; reflexivity).
  split; [exact H|].
  exact (proj2 (second_pass_visits_the_same_nodes no_links no_loops
                  (Pathlib.Path "/srv/schemas") root root' H)).
Defined.

(** X5, a run: a location written with backslashes. *)
Lemma backslash_marker_never_survives_witness :
  let root := ET.getroot (schema_with [xs_import "..\CommonTypes\v14\CommonTypes-Schema.xsd"]) in
  let root' :=
    ET.getroot (schema_with
      [xs_import "file:///srv/schemas/..%5CCommonTypes%5Cv14%5CCommonTypes-Schema.xsd"]) in
  rewrite_pass no_links no_loops (Pathlib.Path "/srv/schemas") root = Val root' /\
  forall p, In p (reference_nodes root') ->
    Str.contains "\CommonTypes\v14\" (location_at root' p) = false.
Proof.
  intros root root'.
  assert (H : rewrite_pass no_links no_loops (Pathlib.Path "/srv/schemas") root = Val root')
    by (vm_compute; reflexivity).
  split; [exact H|].
  exact (proj1 (backslash_marker_never_survives no_links no_loops
                  (Pathlib.Path "/srv/schemas") root root' H)).
Defined.

(** X6, a run: a trusted directory below the marker. *)
Lemma rewrite_raises_below_a_marker_directory_witness :
  let xsd_tree := schema_with [xs_import canonical_location] in
  let schema_dir := Pathlib.Path "/data/CommonTypes/v14/local" in
  let root := ET.getroot xsd_tree in
  Forall (fun p => resolves no_links no_loops schema_dir (location_at root p))
         (located_references root) /\
  Forall (fun p => resolves_in_place no_links schema_dir (location_at root p))
         (matching_references root) /\
  matching_references root <> [] /\
  rewrite_schema_imports_in_memory no_links no_loops xsd_tree schema_dir
  = Exc rewrite_incomplete.
Proof.
  intros xsd_tree schema_dir root.
  assert (H0 : Forall (fun p => resolves no_links no_loops schema_dir (location_at root p))
                      (located_references root))
    by (repeat constructor).
  assert (H1 : Forall (fun p => resolves_in_place no_links schema_dir (location_at root p))
                      (matching_references root))
    by (repeat constructor).
  assert (H2 : matching_references root <> [])
    by (vm_compute; discriminate).
  split; [exact H0|]. split; [exact H1|]. split; [exact H2|].
  apply (proj2 (rewrite_raises_exactly_below_a_marker_directory no_links no_loops xsd_tree
                  schema_dir H0 H1 H2)).
  reflexivity.
Defined.

(** X7, a run. *)
Lemma nothing_is_parsed_unless_the_checks_pass_witness :
  let args := mkArgs "/srv/schemas" "/srv/in/submission.xml" in
  let ev := Parse "/srv/in/submission.xml" secure_parser in
  In ev (snd (validate strict_world args [])) /\ is_load ev = true /\
  checks_pass strict_world args = true.
Proof.
  intros args ev.
  assert (H1 : In ev (snd (validate strict_world args [])))
    by (vm_compute; repeat first [left; reflexivity | right]).
  assert (H2 : is_load ev = true) by reflexivity.
  split; [exact H1|]. split; [exact H2|].
  exact (nothing_is_parsed_unless_the_checks_pass strict_world args ev H1 H2).
Defined.

(** X8, a run. *)
Lemma loading_stops_at_the_first_failure_witness :
  let args := mkArgs "/srv/schemas" "/srv/in/submission.xml" in
  checks_pass strict_world args = true /\
  count is_parse (snd (validate strict_world args [])) = 3.
Proof.
  intros args.
  assert (H : checks_pass strict_world args = true) by (vm_compute; reflexivity).
  split; [exact H|].
  exact (loading_stops_at_the_first_failure strict_world args H).
Defined.

(** X13, a run. *)
Lemma existence_checks_stop_witness :
  let args := mkArgs "/srv/schemas" "/srv/in/submission.xml" in
  has_forbidden (Pathlib.str (schema_dir_of args)) = false /\
  has_forbidden (Pathlib.str (submission_of args)) = false /\
  count is_stat (snd (validate strict_world args [])) = 4.
Proof.
  intros args.
  assert (H1 : has_forbidden (Pathlib.str (schema_dir_of args)) = false) by reflexivity.
  assert (H2 : has_forbidden (Pathlib.str (submission_of args)) = false) by reflexivity.
  split; [exact H1|]. split; [exact H2|].
  exact (existence_checks_stop_at_the_first_failure strict_world args H1 H2).
Defined.

(** X9, a run: the common-types file holds another schema. *)
Lemma common_types_tree_witness :
  let args := mkArgs "/srv/schemas" "/srv/in/submission.xml" in
  empty_common_types "/srv/schemas/CommonTypes-Schema.xsd" secure_parser
  <> ET_parse strict_world "/srv/schemas/CommonTypes-Schema.xsd" secure_parser /\
  fst (validate (with_parse strict_world empty_common_types) args [])
  = fst (validate strict_world args []).
Proof.
  intros args. split; [vm_compute; discriminate|].
  apply (common_types_tree_is_only_checked_for_loading strict_world empty_common_types args);
    reflexivity.
Defined.

(** X11, a run. *)
Lemma a_failed_reparse_escapes_the_run_witness :
  let args := mkArgs "/srv/schemas" "/srv/in/submission.xml" in
  let xsd_tree := schema_with [xs_import canonical_location] in
  let rewritten := schema_with [xs_import "file:///srv/schemas/CommonTypes-Schema.xsd"] in
  let e := "Couldn't find end of Start Tag schema, line 1" in
  loaded garbling_world args xsd_tree xsd_tree /\
  rewrite_schema_imports_in_memory (realpath garbling_world) (stat_eloop garbling_world)
    xsd_tree (schema_dir_of args) = Val rewritten /\
  reparsed garbling_world rewritten = inr e /\
  fst (validate garbling_world args []) = Exc (XMLSyntaxError e).
Proof.
  intros args xsd_tree rewritten e.
  assert (H1 : loaded garbling_world args xsd_tree xsd_tree)
    by (repeat split; vm_compute; reflexivity).
  assert (H2 : rewrite_schema_imports_in_memory (realpath garbling_world)
                 (stat_eloop garbling_world) xsd_tree (schema_dir_of args) = Val rewritten)
    by (vm_compute; reflexivity).
  assert (H3 : reparsed garbling_world rewritten = inr e) by reflexivity.
  split; [exact H1|]. split; [exact H2|]. split; [exact H3|].
  exact (proj1 (proj2 (a_failed_reparse_escapes_the_run garbling_world args xsd_tree
                         xsd_tree rewritten e H1 H2 H3))).
Defined.
